(** * Runner-Asseractions: runners, races and the competition leaderboard

    A shallow embedding of [runner.py], [race.py] and [competition.py].
    Python objects with identity (the [Runner] instances whose [energy] the
    races mutate) live in a store indexed by references; methods that can
    raise return in the [res] monad; Python floats are binary64 values. *)

From Stdlib Require Import ZArith Floats Lia Ascii.
From stdpp Require Import base tactics option list sorting functions strings pretty gmap.

Set Warnings "-inexact-float".
Local Open Scope Z_scope.

(** ** The fragment of the Python runtime the program relies on *)

Module py.

(** Exceptions: the three the repository's [custom_errors] declares for
    [Runner]/[Race] arguments and the roster, and the built-in ones that the
    operators and library calls of the program can raise. *)
Inductive exn : Set :=
  | CustomTypeError | CustomValueError
  | RaceIsFullError | RunnerAlreadyExistsError | RunnerDoesntExistError
  | TypeError | ValueError | OverflowError | ZeroDivisionError
  | KeyError | IndexError.

Inductive res (A : Type) : Type :=
  | Ok (a : A)
  | Raise (e : exn).
Arguments Ok {A} a.
Arguments Raise {A} e.

Definition bind {A B} (m : res A) (k : A → res B) : res B :=
  match m with
  | Ok a => k a
  | Raise e => Raise e
  end.

Definition is_ok {A} (m : res A) : bool :=
  match m with Ok _ => true | Raise _ => false end.

Definition returned {A} (m : res A) : option A :=
  match m with Ok a => Some a | Raise _ => None end.

(** References to [Runner] objects, and dynamically typed arguments. *)
Definition ref := nat.

Inductive pyval : Type :=
  | VNone
  | VBool (b : bool)
  | VInt (n : Z)
  | VFloat (x : float)
  | VStr (s : string)
  | VRunner (r : ref).

(** [isinstance(v, int)] holds of [bool] too, whose values count as 0 and 1. *)
Definition as_int (v : pyval) : option Z :=
  match v with
  | VInt n => Some n
  | VBool b => Some (if b then 1 else 0)
  | _ => None
  end.

Definition as_float (v : pyval) : option float :=
  match v with VFloat x => Some x | _ => None end.

Definition as_str (v : pyval) : option string :=
  match v with VStr s => Some s | _ => None end.

Definition as_runner (v : pyval) : option ref :=
  match v with VRunner r => Some r | _ => None end.

(** *** Floats *)

(** [x / y] on floats raises on a zero divisor. *)
Definition truediv (x y : float) : res float :=
  if PrimFloat.eqb y 0 then Raise ZeroDivisionError else Ok (x / y)%float.

Definition is_finite (x : float) : bool :=
  match Prim2SF x with
  | S754_zero _ | S754_finite _ _ _ => true
  | _ => false
  end.

(** [math.ceil]: the least integer not below [x]; infinities and NaN have
    none. *)
Definition ceil (x : float) : res Z :=
  match Prim2SF x with
  | S754_nan => Raise ValueError
  | S754_infinity _ => Raise OverflowError
  | S754_zero _ => Ok 0
  | S754_finite s m e =>
      let sm := if s then Z.neg m else Z.pos m in
      Ok (if 0 <=? e then sm * 2 ^ e else - ((- sm) / 2 ^ (- e)))
  end.

(** The integer nearest to [n / d] for [d > 0], ties to the even one. *)
Definition div_half_even (n d : Z) : Z :=
  let q := n / d in
  let r := n mod d in
  if 2 * r <? d then q
  else if d <? 2 * r then q + 1
  else if Z.even q then q else q + 1.

(** [round(x, 2)]: the float nearest to the two-decimal number nearest to
    the exact value of [x] (ties to even); zeros, infinities and NaN round
    to themselves. *)
Definition round2 (x : float) : float :=
  match Prim2SF x with
  | S754_finite s m e =>
      let n := if 0 <=? e then 100 * Z.pos m * 2 ^ e
               else div_half_even (100 * Z.pos m) (2 ^ (- e)) in
      match n with
      | Z.pos p =>
          SF2Prim (SFdiv prec emax (S754_finite s p 0) (S754_finite false 100 0))
      | _ => if s then (-0)%float else 0%float
      end
  | _ => x
  end.

(** *** Strings

    A [string] stands for the Python [str] whose code points are its
    characters (code points below 256). *)

Definition between (lo hi : N) (c : Ascii.ascii) : bool :=
  let n := Ascii.N_of_ascii c in ((lo <=? n) && (n <=? hi))%N.

(** [str.isalnum] on one code point: digits, letters and the Latin-1
    letters and numerics of the Unicode database. *)
Definition isalnum_char (c : Ascii.ascii) : bool :=
  existsb (λ r : N * N, between r.1 r.2 c)
    [(48, 57); (65, 90); (97, 122); (170, 170); (178, 179); (181, 181);
     (185, 186); (188, 190); (192, 214); (216, 246); (248, 255)]%N.

Fixpoint all_chars (p : Ascii.ascii → bool) (s : string) : bool :=
  match s with
  | EmptyString => true
  | String c s' => p c && all_chars p s'
  end.

(** [s.isalnum()]: every character is alphanumeric and there is at least
    one. *)
Definition isalnum (s : string) : bool :=
  match s with
  | EmptyString => false
  | _ => all_chars isalnum_char s
  end.

(** [s.replace(' ', '')] *)
Fixpoint remove_spaces (s : string) : string :=
  match s with
  | EmptyString => EmptyString
  | String c s' =>
      if Ascii.eqb c " "%char then remove_spaces s' else String c (remove_spaces s')
  end.

(** *** [sorted]

    [sorted] is stable and orders by [<] on the keys alone; an exception
    raised by a comparison aborts the sort.  It is modelled by stable
    insertion: each element goes before the first element of the sorted
    prefix that it is less than.  On keys that [<] orders as a strict weak
    order this is the list Python returns, and on keys of two types that
    [<] refuses to compare both raise. *)
Fixpoint insort {A} (lt : A → A → res bool) (x : A) (l : list A) : res (list A) :=
  match l with
  | [] => Ok [x]
  | y :: l' =>
      bind (lt x y) (λ b,
        if b then Ok (x :: y :: l')
        else bind (insort lt x l') (λ l'', Ok (y :: l'')))
  end.

Fixpoint sort_onto {A} (lt : A → A → res bool) (acc l : list A) : res (list A) :=
  match l with
  | [] => Ok acc
  | x :: l' => bind (insort lt x acc) (λ acc', sort_onto lt acc' l')
  end.

Definition sorted {A} (lt : A → A → res bool) (l : list A) : res (list A) :=
  sort_onto lt [] l.

(** The same insertion with a comparison that cannot raise: what [sorted]
    computes when no comparison raises. *)
Fixpoint insort_pure {A} (ltb : A → A → bool) (x : A) (l : list A) : list A :=
  match l with
  | [] => [x]
  | y :: l' => if ltb x y then x :: y :: l' else y :: insort_pure ltb x l'
  end.

Definition sorted_pure {A} (ltb : A → A → bool) (l : list A) : list A :=
  foldl (λ acc x, insort_pure ltb x acc) [] l.

(** [y] does not come before [x] in the order of [ltb]. *)
Definition not_before {A} (ltb : A → A → bool) (x y : A) : Prop :=
  ltb y x = false.

(** [enumerate] *)
Definition enumerate {A} (l : list A) : list (Z * A) :=
  imap (λ i x, (Z.of_nat i, x)) l.

(** *** [dict] with [str] keys

    A dictionary keeps its items in insertion order, and assigning to a key
    it has keeps that key's place. *)
Abbreviation dict V := (list (string * V)).

Fixpoint dict_get {V} (d : dict V) (k : string) : option V :=
  match d with
  | [] => None
  | (k', v) :: d' => if decide (k = k') then Some v else dict_get d' k
  end.

Fixpoint dict_set {V} (k : string) (v : V) (d : dict V) : dict V :=
  match d with
  | [] => [(k, v)]
  | (k', v') :: d' =>
      if decide (k = k') then (k, v) :: d' else (k', v') :: dict_set k v d'
  end.

Definition keys {V} (d : dict V) : list string := d.*1.

(** A [for] loop whose body can raise. *)
Fixpoint foldM {A B} (f : B → A → res B) (b : B) (l : list A) : res B :=
  match l with
  | [] => Ok b
  | x :: l' => bind (f b x) (λ b', foldM f b' l')
  end.

End py.

Declare Scope res_scope.
Notation "x ← m ; k" := (py.bind m (λ x, k))
  (at level 20, m at level 100, k at level 200, only parsing) : res_scope.
Notation "' p ← m ; k" := (py.bind m (λ x, let 'p := x in k))
  (at level 20, p pattern, m at level 100, k at level 200, only parsing) : res_scope.
Delimit Scope res_scope with res.
Local Open Scope res_scope.

Import py.

(** ** runner.py *)

Module runner.

Record Runner : Type := mkRunner {
  name : string;
  age : Z;
  country : string;
  sprint_speed : float;
  endurance_speed : float;
  energy : Z;
  max_energy : Z
}.

(** [r.energy = e] *)
Definition set_energy (r : Runner) (e : Z) : Runner :=
  mkRunner (name r) (age r) (country r) (sprint_speed r) (endurance_speed r)
           e (max_energy r).

(** [Runner.__init__].  The set read from [countries.csv] is the argument
    [valid_countries]. *)
Definition init (valid_countries : gset string)
    (name age country sprint_speed endurance_speed : pyval) : res Runner :=
  match as_str name, as_int age, as_str country,
        as_float sprint_speed, as_float endurance_speed with
  | Some name, Some age, Some country, Some sprint_speed, Some endurance_speed =>
      if negb (isalnum (remove_spaces name)
               && ((5 <=? age) && (age <=? 100))
               && bool_decide (country ∈ valid_countries)
               && ((2.2 <=? sprint_speed)%float && (sprint_speed <=? 6.8)%float)
               && ((1.8 <=? endurance_speed)%float && (endurance_speed <=? 5.4)%float))
      then Raise CustomValueError
      else Ok (mkRunner name age country sprint_speed endurance_speed 1000 1000)
  | _, _, _, _, _ => Raise CustomTypeError
  end.

Definition drain_energy (self : Runner) (drain_points : pyval) : res Runner :=
  match as_int drain_points with
  | None => Raise CustomTypeError
  | Some drain_points =>
      if negb ((1 <=? drain_points) && (drain_points <=? max_energy self))
      then Raise CustomValueError
      else
        let e := energy self - drain_points in
        Ok (set_energy self (if e <? 0 then 0 else e))
  end.

Definition recover_energy (self : Runner) (recovery_amount : pyval) : res Runner :=
  match as_int recovery_amount with
  | None => Raise CustomTypeError
  | Some recovery_amount =>
      if negb ((1 <=? recovery_amount) && (recovery_amount <=? max_energy self))
      then Raise CustomValueError
      else
        let e := energy self + recovery_amount in
        Ok (set_energy self (if max_energy self <? e then max_energy self else e))
  end.

Definition valid_race_types : list string := ["short"; "long"].

Definition run_race (self : Runner) (race_type distance : pyval) : res float :=
  match as_str race_type with
  | None => Raise CustomTypeError
  | Some race_type =>
      match as_float distance with
      | None => Raise CustomTypeError
      | Some distance =>
          if negb (bool_decide (race_type ∈ valid_race_types))
          then Raise CustomValueError
          else if (distance <=? 0)%float then Raise CustomValueError
          else
            let distance_meters := (distance * 1000)%float in
            time_taken ←
              (if bool_decide (race_type = "short")
               then truediv distance_meters (sprint_speed self)
               else truediv distance_meters (endurance_speed self));
            Ok (round2 time_taken)
      end
  end.

(** *** The vocabulary of the properties *)

(** What [__init__] establishes of the fields the methods compute with, and
    the methods keep: the speeds in their ranges, and the energy between 0
    and [max_energy], which is 1000. *)
Definition energy_in_range (r : Runner) : bool :=
  (0 <=? energy r) && (energy r <=? max_energy r) && (max_energy r =? 1000).

Definition validated (r : Runner) : bool :=
  ((2.2 <=? sprint_speed r) && (sprint_speed r <=? 6.8))%float
  && ((1.8 <=? endurance_speed r) && (endurance_speed r <=? 5.4))%float
  && energy_in_range r.

(** The arguments of [__init__] have the types it checks for. *)
Definition well_typed (name age country sprint_speed endurance_speed : pyval) : Prop :=
  is_Some (as_str name) ∧ is_Some (as_int age) ∧ is_Some (as_str country)
  ∧ is_Some (as_float sprint_speed) ∧ is_Some (as_float endurance_speed).

(** [lo <= x <= hi] on floats. *)
Definition in_interval (lo hi x : float) : Prop :=
  (lo <=? x)%float = true ∧ (x <=? hi)%float = true.

(** A call of one of the two methods that change the energy. *)
Inductive energy_call : Set :=
  | Drain (drain_points : Z)
  | Recover (recovery_amount : Z).

Definition do_call (self : Runner) (c : energy_call) : res Runner :=
  match c with
  | Drain n => drain_energy self (VInt n)
  | Recover n => recover_energy self (VInt n)
  end.

Definition valid_call (c : energy_call) : bool :=
  match c with
  | Drain n | Recover n => (1 <=? n) && (n <=? 1000)
  end.

End runner.

(** ** race.py *)

Module race.
Import runner.

(** The store of [Runner] objects: what each reference denotes now. *)
Abbreviation store := (ref → Runner).

(** A finishing time, or the marker ["DNF"]. *)
Inductive taken_time : Type :=
  | Time (t : float)
  | DNF.

Definition is_DNF (t : taken_time) : bool :=
  match t with DNF => true | Time _ => false end.

Record Race : Type := mkRace {
  distance : float;
  runners : list ref;
  race_type : string;
  energy_per_km : Z;
  maximum_participants : Z;
  time_multiplier : float
}.

(** [self.runners = l] *)
Definition set_runners (self : Race) (l : list ref) : Race :=
  mkRace (distance self) l (race_type self) (energy_per_km self)
         (maximum_participants self) (time_multiplier self).

(** [Race.__init__]; [runners] is [None] or a list, whose elements may be
    anything. *)
Definition init (distance : pyval) (runners : option (list pyval))
    (race_type : pyval) : res Race :=
  let runners := default [] runners in
  match as_float distance, as_str race_type, mapM as_runner runners with
  | Some distance, Some race_type, Some runners =>
      if negb ((0 <? distance)%float
               && bool_decide (race_type ∈ ["short"; "long"]))
      then Raise CustomValueError
      else Ok (mkRace distance runners race_type 100
                      (if bool_decide (race_type = "short") then 8 else 16)
                      1.2)
  | _, _, _ => Raise CustomTypeError
  end.

Definition ShortRace (distance : pyval) (runners : option (list pyval)) : res Race :=
  init distance runners (VStr "short").

Definition MarathonRace (distance : pyval) (runners : option (list pyval)) : res Race :=
  init distance runners (VStr "long").

Definition add_runner (self : Race) (runner : pyval) : res Race :=
  match as_runner runner with
  | None => Raise CustomTypeError
  | Some runner =>
      if maximum_participants self <=? Z.of_nat (length (runners self))
      then Raise RaceIsFullError
      else if bool_decide (runner ∈ runners self)
      then Raise RunnerAlreadyExistsError
      else Ok (set_runners self (runners self ++ [runner]))
  end.

(** [list.remove]: drops the first occurrence. *)
Fixpoint list_remove_first (x : ref) (l : list ref) : list ref :=
  match l with
  | [] => []
  | y :: l' => if decide (x = y) then l' else y :: list_remove_first x l'
  end.

Definition remove_runner (self : Race) (runner : pyval) : res Race :=
  match as_runner runner with
  | None => Raise CustomTypeError
  | Some runner =>
      if negb (bool_decide (runner ∈ runners self))
      then Raise RunnerDoesntExistError
      else Ok (set_runners self (list_remove_first runner (runners self)))
  end.

(** The inner loop of the marathon, [for km in range(n)], for one runner.
    [time_taken] starts as the integer 0, which the first [+=] turns into
    the float [0 + t]; the accumulator is a float from the start here, so
    that a loop of no kilometre, which would leave the integer, leaves the
    float 0.  No race that the constructor returns has such a loop: its
    distance is positive, and then [math.ceil] is at least 1. *)
Fixpoint run_kilometres (n : nat) (h : store) (runner : ref) (time_taken : float)
    : res (store * taken_time) :=
  match n with
  | O => Ok (h, Time time_taken)
  | S n' =>
      if 0 <? energy (h runner) then
        t ← run_race (h runner) (VStr "long") (VFloat 1);
        r' ← drain_energy (h runner) (VInt 100);
        run_kilometres n' (<[runner := r']> h) runner (time_taken + t)%float
      else Ok (h, DNF)
  end.

Fixpoint conduct_short (self : Race) (h : store) (l : list ref)
    : res (list (ref * taken_time)) :=
  match l with
  | [] => Ok []
  | runner :: l' =>
      t ← run_race (h runner) (VStr "short") (VFloat (distance self));
      result ← conduct_short self h l';
      Ok ((runner, Time (t * time_multiplier self)%float) :: result)
  end.

Fixpoint conduct_long (self : Race) (h : store) (l : list ref)
    : res (store * list (ref * taken_time)) :=
  match l with
  | [] => Ok (h, [])
  | runner :: l' =>
      km ← ceil (distance self);
      '(h1, time_taken) ← run_kilometres (Z.to_nat km) h runner 0;
      '(h2, result) ← conduct_long self h1 l';
      Ok (h2, (runner, time_taken) :: result)
  end.

(** [conduct_race] returns the list of results; the store as the race
    leaves it comes with it here. *)
Definition conduct_race (self : Race) (h : store)
    : res (store * list (ref * taken_time)) :=
  if bool_decide (race_type self = "short") then
    result ← conduct_short self h (runners self);
    Ok (h, result)
  else if bool_decide (race_type self = "long") then
    conduct_long self h (runners self)
  else Ok (h, []).

(** *** The vocabulary of the properties *)

(** The time [run_race("long", 1.0)] gives a runner for one kilometre, and
    the time of [n] kilometres added up one after the other from 0. *)
Definition lap (r : Runner) : float :=
  round2 (1 * 1000 / endurance_speed r)%float.

Definition laps (r : Runner) (n : nat) : float :=
  Nat.iter n (λ time_taken, time_taken + lap r)%float 0%float.

(** The energy left of [e] after [j] kilometres that drain 100 each. *)
Definition energy_after (e j : Z) : Z := Z.max 0 (e - 100 * j).

(** The invariant of the roster: no more runners than
    [maximum_participants], and no runner twice. *)
Definition roster_invariant (self : Race) : bool :=
  (Z.of_nat (length (runners self)) <=? maximum_participants self)
  && bool_decide (NoDup (runners self)).

(** Two stores that differ in energies only. *)
Definition same_but_energy (h h' : store) : Prop :=
  ∀ r, ∃ e, h' r = set_energy (h r) e.

(** Every runner of a roster is validated in the store. *)
Definition all_validated (h : store) (l : list ref) : bool :=
  forallb (λ r, validated (h r)) l.

End race.

(** ** competition.py *)

Module competition.
Import runner race.

Definition MAX_ROUNDS : Z := 3.

(** A leaderboard slot holds [None] or a [(name, score)] pair. *)
Abbreviation board := (dict (option (string * Z))).

Record Competition : Type := mkCompetition {
  runners : list ref;
  rounds : Z;
  distances_short : list float;
  distances_marathon : list float;
  leaderboard : board
}.

(** [self.leaderboard = lb] *)
Definition set_leaderboard (self : Competition) (lb : board) : Competition :=
  mkCompetition (runners self) (rounds self) (distances_short self)
                (distances_marathon self) lb.

(** [__get_ordinal]; [pretty n] is the decimal numeral of [n]. *)
Definition get_ordinal (n : Z) : string :=
  let suffix :=
    if (11 <=? n mod 100) && (n mod 100 <=? 13) then "th"
    else match n mod 10 with
         | 1 => "st"
         | 2 => "nd"
         | 3 => "rd"
         | _ => "th"
         end in
  pretty n +:+ suffix.

(** [Competition.__init__] *)
Definition init (runners : list pyval) (rounds : pyval)
    (distances_short distances_marathon : list pyval) : res Competition :=
  match mapM as_runner runners, as_int rounds,
        mapM as_float distances_short, mapM as_float distances_marathon with
  | Some runners, Some rounds, Some distances_short, Some distances_marathon =>
      if negb (((1 <=? rounds) && (rounds <=? MAX_ROUNDS))
               && forallb (λ distance, 0 <? distance)%float distances_short
               && forallb (λ distance, 0 <? distance)%float distances_marathon
               && (bool_decide (length distances_short = length distances_marathon)
                   && (Z.of_nat (length distances_marathon) =? rounds)))
      then Raise CustomValueError
      else
        Ok (mkCompetition runners rounds distances_short distances_marathon
              (foldl (λ lb i, dict_set (get_ordinal i) None lb) []
                     (seqZ 1 (Z.of_nat (length runners)))))
  | _, _, _, _ => Raise CustomTypeError
  end.

(** [<] on what the first sort compares: two times compare as floats, of
    two ["DNF"] strings neither is less, and a float and a string do not
    compare. *)
Definition lt_time (a b : taken_time) : res bool :=
  match a, b with
  | Time x, Time y => Ok (x <? y)%float
  | DNF, DNF => Ok false
  | _, _ => Raise TypeError
  end.

(** The orders of the two sorts of [update_leaderboard]: [<] on the times
    of the results, and [<] on the negated scores. *)
Definition by_time (x y : ref * taken_time) : res bool := lt_time x.2 y.2.

Definition by_score (x y : string * Z) : res bool := Ok (- x.2 <? - y.2).

(** The points of the result at place [i], counted from 0, among [n]. *)
Definition points_at (n : nat) (i : Z) (taken_time : taken_time) : Z :=
  if is_DNF taken_time then 0 else Z.of_nat n - i - 1.

(** The comprehension that builds [name2score] from the sorted results. *)
Definition race_scores (h : store) (n : nat)
    (sorted_result : list (ref * taken_time)) : dict Z :=
  foldl (λ d '(i, (runner, taken_time)),
           dict_set (name (h runner)) (points_at n i taken_time) d)
        [] (enumerate sorted_result).

(** The body of the loop that adds the scores the leaderboard holds:
    [name2score[name] += score] for the slot of [key], when it is not
    [None]. *)
Definition add_previous (lb : board) (name2score : dict Z) (key : string)
    : res (dict Z) :=
  match dict_get lb key with
  | Some (Some (name, score)) =>
      match dict_get name2score name with
      | Some s => Ok (dict_set name (s + score) name2score)
      | None => Raise KeyError
      end
  | _ => Ok name2score
  end.

(** The body of the loop that fills the slots:
    [leaderboard[leaderboard_keys[i]] = name_score]. *)
Definition assign_rank (leaderboard_keys : list string) (lb : board)
    (item : Z * (string * Z)) : res board :=
  let '(i, name_score) := item in
  match leaderboard_keys !! Z.to_nat i with
  | Some key => Ok (dict_set key (Some name_score) lb)
  | None => Raise IndexError
  end.

Definition update_leaderboard (lb : board) (h : store)
    (results : list (ref * taken_time)) : res board :=
  sorted_result ← sorted by_time results;
  let leaderboard_keys := keys lb in
  let name2score := race_scores h (length results) sorted_result in
  name2score ← foldM (add_previous lb) name2score leaderboard_keys;
  sorted_result ← sorted by_score name2score;
  foldM (assign_rank leaderboard_keys) lb (enumerate sorted_result).

(** The loop that recovers the energy of the runners marked DNF. *)
Definition recover_dnf (h : store) (marathon_result : list (ref * taken_time))
    : res store :=
  foldM (λ h '(runner, taken_time),
           if is_DNF taken_time then
             r' ← recover_energy (h runner) (VInt 1000);
             Ok (<[runner := r']> h)
           else Ok h) h marathon_result.

(** The two races of a round; the index [i] of the distances is 0
    throughout [conduct_competition], and [self.conduct_race(race)] is
    [race.conduct_race()]. *)
Definition run_races (self : Competition) (h : store)
    : res (store * list (ref * taken_time) * list (ref * taken_time)) :=
  let i := 0%nat in
  d ← from_option Ok (Raise IndexError) (distances_short self !! i);
  short_race ← ShortRace (VFloat d) (Some (VRunner <$> runners self));
  let short_race := set_runners short_race (runners self) in
  '(h, short_result) ← conduct_race short_race h;
  d ← from_option Ok (Raise IndexError) (distances_marathon self !! i);
  marathon ← MarathonRace (VFloat d) (Some (VRunner <$> runners self));
  let marathon := set_runners marathon (runners self) in
  '(h, marathon_result) ← conduct_race marathon h;
  Ok (h, short_result, marathon_result).

(** One iteration of the [while] loop of [conduct_competition]. *)
Definition round (self : Competition) (h : store) : res (store * Competition) :=
  '(h, short_result, marathon_result) ← run_races self h;
  h ← recover_dnf h marathon_result;
  lb ← update_leaderboard (leaderboard self) h short_result;
  lb ← update_leaderboard lb h marathon_result;
  Ok (h, set_leaderboard self lb).

(** The [while] loop.  [fuel] bounds the turns; the loop makes [rounds]
    turns, which is the fuel [conduct_competition] gives it. *)
Fixpoint while_rounds (fuel : nat) (self : Competition) (h : store)
    (current_round : Z) : res (store * Competition) :=
  match fuel with
  | O => Ok (h, self)
  | S fuel' =>
      if current_round <=? rounds self then
        '(h', self') ← round self h;
        while_rounds fuel' self' h' (current_round + 1)
      else Ok (h, self)
  end.

(** [conduct_competition] returns the leaderboard; the store and the
    competition as it leaves them come with it here. *)
Definition conduct_competition (self : Competition) (h : store)
    : res (store * Competition * board) :=
  '(h', self') ← while_rounds (Z.to_nat (rounds self)) self h 1;
  Ok (h', self', leaderboard self').

(** *** The vocabulary of the properties *)

(** The suffix of an English ordinal: "th" for the numbers that end in 11,
    12 or 13, and otherwise "st", "nd" or "rd" after a last digit 1, 2 or
    3, and "th" after any other. *)
Definition english_suffix (n : Z) : string :=
  if bool_decide (n mod 100 ∈ [11; 12; 13]) then "th"
  else if bool_decide (n mod 10 = 1) then "st"
  else if bool_decide (n mod 10 = 2) then "nd"
  else if bool_decide (n mod 10 = 3) then "rd"
  else "th".

(** The names of the runners of a list of results, in its order. *)
Definition names (h : store) (results : list (ref * taken_time)) : list string :=
  (λ x, name (h x.1)) <$> results.

(** The names of a roster. *)
Definition roster_names (h : store) (l : list ref) : list string :=
  (λ r, name (h r)) <$> l.

(** Every result holds a time; every result is DNF. *)
Definition all_finished (results : list (ref * taken_time)) : bool :=
  forallb (λ x, negb (is_DNF x.2)) results.

Definition all_DNF (results : list (ref * taken_time)) : bool :=
  forallb (λ x, is_DNF x.2) results.


(** [x] has more points than [y]: the order of the second sort. *)
Definition more_points (x y : string * Z) : bool := - x.2 <? - y.2.

(** Some result of [runner] in the list is DNF. *)
Definition dnf_in (results : list (ref * taken_time)) (runner : ref) : bool :=
  existsb (λ x, bool_decide (x.1 = runner) && is_DNF x.2) results.

(** The points a race gives a name: those of [name2score] as the
    comprehension builds it, 0 for a name that is not in it. *)
Definition race_points (h : store) (results : list (ref * taken_time))
    (nm : string) : Z :=
  match sorted by_time results with
  | Ok sorted_result =>
      default 0 (dict_get (race_scores h (length results) sorted_result) nm)
  | Raise _ => 0
  end.

(** The score a leaderboard holds for a name: what its slots with that name
    add up to, 0 when there is none. *)
Definition score_in (lb : board) (nm : string) : Z :=
  foldr (λ slot acc,
           match slot.2 with
           | Some (n, s) => if decide (n = nm) then s + acc else acc
           | None => acc
           end) 0 lb.

(** The results of the races of the loop, in the order in which the loop
    folds them into the leaderboard. *)
Fixpoint race_log (fuel : nat) (self : Competition) (h : store)
    (current_round : Z) : res (list (list (ref * taken_time))) :=
  match fuel with
  | O => Ok []
  | S fuel' =>
      if current_round <=? rounds self then
        '(h, short_result, marathon_result) ← run_races self h;
        h ← recover_dnf h marathon_result;
        log ← race_log fuel' self h (current_round + 1);
        Ok (short_result :: marathon_result :: log)
      else Ok []
  end.

(** The points the races of a log give a name, added up. *)
Definition total_points (h : store) (log : list (list (ref * taken_time)))
    (nm : string) : Z :=
  foldr (λ results acc, race_points h results nm + acc) 0 log.

End competition.

(** ** Sample objects

    The runners of the examples at the end of [runner.py] and [race.py] and
    of [test_runner.py], in a store: reference 0 is Elijah, every other
    reference is Rupert. *)

Module scenario.
Import runner race competition.

Definition elijah : Runner := mkRunner "Elijah" 25 "Australia" 6.5 4 1000 1000.
Definition rupert : Runner := mkRunner "Rupert" 23 "Australia" 2.3 1.9 1000 1000.

Definition store0 : store := λ r, match r with O => elijah | _ => rupert end.

(** Nine runners, as arguments. *)
Definition nine_runners : list pyval := VRunner <$> seq 0 9.

(** A store whose first two runners have the same name. *)
Definition namesake : Runner := mkRunner "Elijah" 31 "France" 3 2 1000 1000.

Definition store1 : store := λ r, match r with O => elijah | _ => namesake end.

(** Elijah after ten kilometres, and Rupert fresh. *)
Definition store2 : store :=
  λ r, match r with O => set_energy elijah 0 | _ => rupert end.

(** A competition of the first two runners of a store: one round, a short
    race of 1 km and a marathon of 2 km. *)
Definition duel : Competition :=
  mkCompetition [0; 1]%nat 1 [1%float] [2%float] [("1st", None); ("2nd", None)].

(** The store and the competition that [conduct_competition] leaves of
    [duel] over [store0]. *)
Definition duel_store : store :=
  match conduct_competition duel store0 with
  | Ok (h, _, _) => h
  | Raise _ => store0
  end.

Definition duel_done : Competition :=
  match conduct_competition duel store0 with
  | Ok (_, self, _) => self
  | Raise _ => duel
  end.

(** A competition of Elijah alone: one round, with a marathon of 11 km. *)
Definition solo : Competition :=
  mkCompetition [0%nat] 1 [1%float] [11%float] [("1st", None)].

(** The store and the marathon results the two races of [solo] leave. *)
Definition solo_store : store :=
  match run_races solo store0 with Ok (h2, _, _) => h2 | Raise _ => store0 end.

Definition solo_marathon : list (ref * taken_time) :=
  match run_races solo store0 with Ok (_, _, m) => m | Raise _ => [] end.

End scenario.

(** * Properties *)

Import runner race competition.

(** ** Floats: what the comparisons of the program imply *)

Section float_facts.

Lemma Prim2SF_zero : Prim2SF 0 = S754_zero false.
Proof. reflexivity. Qed.

Ltac fold_pos_compare :=
  repeat match goal with
         | |- context [PosDef.Pos.compare_cont Eq ?a ?b] =>
             change (PosDef.Pos.compare_cont Eq a b) with (Pos.compare a b)
         end.

(** No float is less than itself, and [<] is transitive, NaN included. *)
Lemma SFltb_irrefl (x : spec_float) : SFltb x x = false.
Proof.
  unfold SFltb, SFcompare.
  destruct x as [s|s| |s m e]; try done; try (by destruct s).
  destruct s; rewrite Z.compare_refl; fold_pos_compare;
    by rewrite Pos.compare_refl.
Qed.

Lemma SFltb_trans (x y z : spec_float) :
  SFltb x y = true → SFltb y z = true → SFltb x z = true.
Proof.
  unfold SFltb, SFcompare.
  destruct x as [sx|sx| |sx mx ex], y as [sy|sy| |sy my ey],
           z as [sz|sz| |sz mz ez];
    try done; try (by destruct sx, sy, sz).
  fold_pos_compare.
  destruct sx, sy, sz; try done;
    destruct (Z.compare_spec ex ey), (Z.compare_spec ey ez),
             (Z.compare_spec ex ez); try done; try lia;
    destruct (Pos.compare_spec mx my), (Pos.compare_spec my mz),
             (Pos.compare_spec mx mz); try done; lia.
Qed.

Lemma ltb_irrefl (x : float) : (x <? x)%float = false.
Proof. rewrite ltb_spec. apply SFltb_irrefl. Qed.

Lemma ltb_trans (x y z : float) :
  (x <? y)%float = true → (y <? z)%float = true → (x <? z)%float = true.
Proof. rewrite !ltb_spec. apply SFltb_trans. Qed.

(** A positive float is not [<= 0]. *)
Lemma positive_not_leb_zero (d : float) :
  (0 <? d)%float = true → (d <=? 0)%float = false.
Proof.
  rewrite ltb_spec, leb_spec, Prim2SF_zero.
  destruct (Prim2SF d) as [s|s| |s m e]; try done; by destruct s.
Qed.

(** A float that some positive float is [<=] is not zero. *)
Lemma leb_positive_nonzero (c s : float) :
  (0 <? c)%float = true → (c <=? s)%float = true → (s =? 0)%float = false.
Proof.
  rewrite ltb_spec, leb_spec, FloatAxioms.eqb_spec, Prim2SF_zero.
  destruct (Prim2SF c) as [sc|sc| |sc mc ec], (Prim2SF s) as [ss|ss| |ss ms es];
    try done; try (by destruct sc); try (by destruct ss);
    by destruct sc, ss.
Qed.

(** [math.ceil] of a positive float: at least 1, or no integer at all when
    the float is the infinity. *)
Lemma ceil_positive (d : float) :
  (0 <? d)%float = true →
  if is_finite d then ∃ km, ceil d = Ok km ∧ 1 ≤ km
  else ceil d = Raise OverflowError.
Proof.
  rewrite ltb_spec, Prim2SF_zero. unfold is_finite, ceil.
  destruct (Prim2SF d) as [s|s| |s m e]; try done.
  destruct s; [done|]. intros _. eexists; split; [done|].
  destruct (Z.leb_spec 0 e).
  - assert (0 < 2 ^ e) by (apply Z.pow_pos_nonneg; lia). nia.
  - assert (0 < 2 ^ (- e)) by (apply Z.pow_pos_nonneg; lia).
    assert (- Z.pos m / 2 ^ (- e) < 0); [|lia].
    apply Z.div_lt_upper_bound; lia.
Qed.

End float_facts.

(** ** Runner *)

Section runner_facts.

Lemma drain_energy_clamps (r : Runner) (n : Z) :
  1 ≤ n ≤ max_energy r →
  drain_energy r (VInt n) = Ok (set_energy r (Z.max 0 (energy r - n))).
Proof.
  intros Hn. unfold drain_energy. simpl.
  destruct (Z.leb_spec 1 n), (Z.leb_spec n (max_energy r)); try lia. simpl.
  do 2 f_equal. destruct (Z.ltb_spec (energy r - n) 0); lia.
Qed.

Lemma recover_energy_clamps (r : Runner) (n : Z) :
  1 ≤ n ≤ max_energy r →
  recover_energy r (VInt n)
  = Ok (set_energy r (Z.min (max_energy r) (energy r + n))).
Proof.
  intros Hn. unfold recover_energy. simpl.
  destruct (Z.leb_spec 1 n), (Z.leb_spec n (max_energy r)); try lia. simpl.
  do 2 f_equal. destruct (Z.ltb_spec (max_energy r) (energy r + n)); lia.
Qed.

Lemma energy_in_range_spec (r : Runner) :
  energy_in_range r = true ↔ 0 ≤ energy r ≤ max_energy r ∧ max_energy r = 1000.
Proof. unfold energy_in_range. rewrite !andb_true_iff. lia. Qed.

Lemma do_call_in_range (r : Runner) (c : energy_call) :
  energy_in_range r = true → valid_call c = true →
  ∃ r', do_call r c = Ok r' ∧ energy_in_range r' = true.
Proof.
  rewrite energy_in_range_spec. intros [He Hm] Hc.
  destruct c as [n|n]; simpl in *; apply andb_true_iff in Hc;
    [rewrite drain_energy_clamps by lia | rewrite recover_energy_clamps by lia];
    (eexists; split; [done|]); apply energy_in_range_spec; simpl; lia.
Qed.

Lemma calls_in_range (calls : list energy_call) (r : Runner) :
  energy_in_range r = true → forallb valid_call calls = true →
  ∃ r', foldM do_call r calls = Ok r' ∧ energy_in_range r' = true.
Proof.
  revert r. induction calls as [|c calls IH]; intros r Hr Hcalls; simpl in *.
  - by exists r.
  - apply andb_true_iff in Hcalls as [Hc Hcalls].
    destruct (do_call_in_range r c Hr Hc) as (r1 & -> & Hr1). simpl.
    by apply IH.
Qed.

Lemma forallb_take {A} (p : A → bool) (l : list A) (k : nat) :
  forallb p l = true → forallb p (take k l) = true.
Proof.
  revert k. induction l as [|x l IH]; intros [|k]; simpl; try done.
  rewrite !andb_true_iff. intros [? ?]. split; [done|by apply IH].
Qed.

End runner_facts.

(** C8: from a runner whose energy is in range, any sequence of
    [drain_energy] and [recover_energy] calls with integer arguments in
    [1, 1000] runs without raising, and after every prefix of it the energy
    is within [0, max_energy]; [drain_energy] subtracts and clamps at 0,
    [recover_energy] adds and clamps at [max_energy], which is 1000. *)
Theorem C8_energy_stays_in_range (r : Runner) (calls : list energy_call) :
  energy_in_range r = true →
  forallb valid_call calls = true →
  (∀ k : nat, ∃ r',
      foldM do_call r (take k calls) = Ok r'
      ∧ 0 ≤ energy r' ≤ max_energy r' ∧ max_energy r' = 1000)
  ∧ (∀ n, 1 ≤ n ≤ 1000 →
       drain_energy r (VInt n) = Ok (set_energy r (Z.max 0 (energy r - n))))
  ∧ (∀ n, 1 ≤ n ≤ 1000 →
       recover_energy r (VInt n)
       = Ok (set_energy r (Z.min (max_energy r) (energy r + n)))).
Proof.
  intros Hr Hcalls. pose proof (proj1 (energy_in_range_spec r) Hr) as [He Hm].
  split; [|split].
  - intros k.
    destruct (calls_in_range (take k calls) r Hr (forallb_take _ _ k Hcalls))
      as (r' & Hrun & Hr').
    exists r'. split; [done|]. by apply energy_in_range_spec.
  - intros n Hn. apply drain_energy_clamps. lia.
  - intros n Hn. apply recover_energy_clamps. lia.
Qed.

(** C8, at an instance: Elijah, fresh, and five calls that reach both ends of the range. *)
Lemma C8_energy_stays_in_range_witness :
  (∀ k : nat, ∃ r',
      foldM do_call (mkRunner "Elijah" 25 "Australia" 6.5 4 1000 1000)
            (take k [Drain 300; Recover 100; Drain 1000; Recover 1000; Recover 1])
      = Ok r'
      ∧ 0 ≤ energy r' ≤ max_energy r' ∧ max_energy r' = 1000)
  ∧ (∀ n, 1 ≤ n ≤ 1000 →
       drain_energy (mkRunner "Elijah" 25 "Australia" 6.5 4 1000 1000) (VInt n)
       = Ok (set_energy (mkRunner "Elijah" 25 "Australia" 6.5 4 1000 1000)
                        (Z.max 0 (1000 - n))))
  ∧ (∀ n, 1 ≤ n ≤ 1000 →
       recover_energy (mkRunner "Elijah" 25 "Australia" 6.5 4 1000 1000) (VInt n)
       = Ok (set_energy (mkRunner "Elijah" 25 "Australia" 6.5 4 1000 1000)
                        (Z.min 1000 (1000 + n)))).
Proof.
  apply (C8_energy_stays_in_range
           (mkRunner "Elijah" 25 "Australia" 6.5 4 1000 1000)
           [Drain 300; Recover 100; Drain 1000; Recover 1000; Recover 1]);
    reflexivity.
Defined.

(** C9: [Runner.__init__] raises the type error exactly when some argument
    has a wrong type; with well-typed arguments it raises the value error
    exactly when the name without its spaces is not alphanumeric, the age is
    outside [5, 100], the country is not in the valid set, or a speed is
    outside its range, and otherwise returns a runner with the five fields
    set and energy and [max_energy] 1000.  A call that raises returns no
    runner: nothing is set before the checks are done. *)
Theorem C9_runner_init (valid_countries : gset string)
    (name age country sprint_speed endurance_speed : pyval) :
  (runner.init valid_countries name age country sprint_speed endurance_speed
   = Raise CustomTypeError
   ↔ ¬ well_typed name age country sprint_speed endurance_speed)
  ∧ (∀ n a c s e,
       as_str name = Some n → as_int age = Some a → as_str country = Some c →
       as_float sprint_speed = Some s → as_float endurance_speed = Some e →
       (runner.init valid_countries name age country sprint_speed endurance_speed
        = Raise CustomValueError
        ↔ isalnum (remove_spaces n) = false ∨ ¬ (5 ≤ a ≤ 100)
          ∨ c ∉ valid_countries
          ∨ ¬ in_interval 2.2 6.8 s ∨ ¬ in_interval 1.8 5.4 e)
       ∧ (runner.init valid_countries name age country sprint_speed endurance_speed
          ≠ Raise CustomValueError →
          runner.init valid_countries name age country sprint_speed endurance_speed
          = Ok (mkRunner n a c s e 1000 1000)))
  ∧ (∀ x, runner.init valid_countries name age country sprint_speed endurance_speed
          = Raise x → x = CustomTypeError ∨ x = CustomValueError).
Proof.
  unfold runner.init, well_typed, in_interval.
  destruct (as_str name) as [n|] eqn:Hn;
    [destruct (as_int age) as [a|] eqn:Ha;
     [destruct (as_str country) as [c|] eqn:Hc;
      [destruct (as_float sprint_speed) as [s|] eqn:Hs;
       [destruct (as_float endurance_speed) as [e|] eqn:He|]|]|]|].
  2-6: split; [|split];
    [ split; [intros _ (?&?&?&?&?); by repeat
                match goal with H : is_Some None |- _ => destruct H as [? [=]] end
             | done]
    | intros; simplify_eq
    | intros x [= <-]; by left ].
  split; [|split].
  - split; [|intros []; by repeat split; eexists].
    intros H. by destruct (negb _).
  - intros n' a' c' s' e' [= <-] [= <-] [= <-] [= <-] [= <-].
    destruct (isalnum (remove_spaces n)); simpl;
      [|split; [split; [by left|done]|done]].
    destruct (Z.leb_spec 5 a); simpl;
      [|split; [split; [right; left; lia|done]|done]].
    destruct (Z.leb_spec a 100); simpl;
      [|split; [split; [right; left; lia|done]|done]].
    destruct (bool_decide_reflect (c ∈ valid_countries)); simpl;
      [|split; [split; [by right; right; left|done]|done]].
    destruct (2.2 <=? s)%float; simpl;
      [|split; [split; [right; right; right; left; by intros []|done]|done]].
    destruct (s <=? 6.8)%float; simpl;
      [|split; [split; [right; right; right; left; by intros []|done]|done]].
    destruct (1.8 <=? e)%float; simpl;
      [|split; [split; [right; right; right; right; by intros []|done]|done]].
    destruct (e <=? 5.4)%float; simpl;
      [|split; [split; [right; right; right; right; by intros []|done]|done]].
    split; [|done]. split; [done|].
    intros [?|[?|[?|[?|?]]]]; try done; try lia; exfalso; auto.
  - intros x. destruct (negb _); intros [= <-]. by right.
Qed.

(** ** Race *)

Section race_facts.

Lemma set_energy_id (r : Runner) : set_energy r (energy r) = r.
Proof. by destruct r. Qed.

Lemma validated_spec (r : Runner) :
  validated r = true ↔
  in_interval 2.2 6.8 (sprint_speed r) ∧ in_interval 1.8 5.4 (endurance_speed r)
  ∧ 0 ≤ energy r ≤ max_energy r ∧ max_energy r = 1000.
Proof.
  unfold validated, in_interval.
  rewrite !andb_true_iff, energy_in_range_spec. tauto.
Qed.

Lemma validated_set_energy (r : Runner) (e : Z) :
  validated r = true → 0 ≤ e ≤ 1000 → validated (set_energy r e) = true.
Proof. rewrite !validated_spec. simpl. intros (?&?&?&->) ?. auto with lia. Qed.

(** On a validated runner the two calls [conduct_race] makes of
    [run_race] return. *)
Lemma run_race_short (r : Runner) (d : float) :
  validated r = true → (0 <? d)%float = true →
  run_race r (VStr "short") (VFloat d)
  = Ok (round2 (d * 1000 / sprint_speed r)%float).
Proof.
  rewrite validated_spec. intros ([Hs _] & _) Hd.
  unfold run_race; simpl. rewrite (positive_not_leb_zero d Hd).
  unfold truediv. by rewrite (leb_positive_nonzero 2.2 _ eq_refl Hs).
Qed.

Lemma run_race_long (r : Runner) :
  validated r = true → run_race r (VStr "long") (VFloat 1) = Ok (lap r).
Proof.
  rewrite validated_spec. intros (_ & [He _] & _).
  unfold run_race; simpl. unfold truediv.
  by rewrite (leb_positive_nonzero 1.8 _ eq_refl He).
Qed.

Lemma drain_100 (r : Runner) :
  validated r = true →
  drain_energy r (VInt 100) = Ok (set_energy r (energy_after (energy r) 1)).
Proof.
  rewrite validated_spec. intros (_ & _ & ? & ?).
  rewrite drain_energy_clamps by lia. unfold energy_after.
  by replace (energy r - 100 * 1) with (energy r - 100) by lia.
Qed.

Lemma laps_succ (r : Runner) (n : nat) (t : float) :
  Nat.iter n (λ x, x + lap r)%float (t + lap r)%float
  = Nat.iter (S n) (λ x, x + lap r)%float t.
Proof. by rewrite Nat.iter_succ_r. Qed.

(** The kilometre loop of one runner in closed form: the runner stops as
    DNF when the energy is at most 100 (n - 1), with the energy at 0, and
    otherwise runs the [n] kilometres.  No other runner changes. *)
Lemma run_kilometres_spec (n : nat) (h : store) (runner : ref) (t : float) :
  validated (h runner) = true →
  let e := energy (h runner) in
  let dnf := e <=? 100 * (Z.of_nat n - 1) in
  ∃ h',
    run_kilometres n h runner t
    = Ok (h', if dnf then DNF
              else Time (Nat.iter n (λ x, x + lap (h runner))%float t))
    ∧ h' runner
      = set_energy (h runner) (if dnf then 0 else energy_after e (Z.of_nat n))
    ∧ ∀ r, r ≠ runner → h' r = h r.
Proof.
  revert h t. induction n as [|n IH]; intros h t Hv e dnf; subst e dnf.
  - pose proof (proj1 (validated_spec _) Hv) as (_ & _ & ? & ?).
    exists h. simpl.
    destruct (Z.leb_spec (energy (h runner)) (100 * (Z.of_nat 0 - 1))); [lia|].
    split; [done|]. split; [|done].
    assert (energy_after (energy (h runner)) (Z.of_nat 0) = energy (h runner))
      as -> by (unfold energy_after; lia).
    by rewrite set_energy_id.
  - pose proof (proj1 (validated_spec _) Hv) as (_ & _ & ? & ?).
    cbn [run_kilometres].
    destruct (Z.ltb_spec 0 (energy (h runner))) as [Hpos|Hzero].
    + rewrite run_race_long, drain_100 by done. cbn [bind].
      set (h1 := <[runner := _]> h).
      assert (h1 runner = set_energy (h runner) (energy_after (energy (h runner)) 1))
        as Hh1 by apply fn_lookup_insert.
      destruct (IH h1 (t + lap (h runner))%float) as (h' & Hrun & Hh' & Hframe).
      { rewrite Hh1. apply validated_set_energy; [done|]. unfold energy_after. lia. }
      exists h'. rewrite Hrun, Hh', Hh1. cbn [energy set_energy lap endurance_speed].
      unfold energy_after.
      destruct (Z.leb_spec (Z.max 0 (energy (h runner) - 100 * 1))
                           (100 * (Z.of_nat n - 1))),
               (Z.leb_spec (energy (h runner)) (100 * (Z.of_nat (S n) - 1)));
        try lia.
      * split; [done|]. split; [done|].
        intros r Hr. rewrite Hframe by done. by apply fn_lookup_insert_ne.
      * split; [by rewrite <- laps_succ|].
        split; [unfold set_energy; simpl; f_equal; lia|].
        intros r Hr. rewrite Hframe by done. by apply fn_lookup_insert_ne.
    + exists h.
      destruct (Z.leb_spec (energy (h runner)) (100 * (Z.of_nat (S n) - 1)));
        [|lia].
      split; [done|]. split; [|done].
      replace 0 with (energy (h runner)) by lia.
      by rewrite set_energy_id.
Qed.

(** What the constructor returns when it returns. *)
Lemma init_Ok (dv : pyval) (ra : option (list pyval)) (tv : pyval) (self : Race) :
  race.init dv ra tv = Ok self →
  ∃ d l t, dv = VFloat d ∧ tv = VStr t ∧ mapM as_runner (default [] ra) = Some l
    ∧ (0 <? d)%float = true ∧ (t = "short" ∨ t = "long")
    ∧ self = mkRace d l t 100 (if bool_decide (t = "short") then 8 else 16) 1.2.
Proof.
  unfold race.init. destruct dv as [| | |d| |]; try done.
  destruct tv as [| | | |t|]; try done. simpl.
  destruct (mapM as_runner (default [] ra)) as [l|]; [|done].
  destruct (0 <? d)%float eqn:Hd; [|done]. simpl.
  destruct (bool_decide_reflect (t ∈ ["short"; "long"])) as [Ht|]; [|done].
  intros [= <-]. exists d, l, t. split_and!; try done.
  apply elem_of_cons in Ht as [->|Ht]; [by left|].
  apply list_elem_of_singleton in Ht as ->. by right.
Qed.

Lemma init_fields (dv : pyval) (ra : option (list pyval)) (tv : pyval)
    (self : Race) :
  race.init dv ra tv = Ok self →
  dv = VFloat (distance self) ∧ tv = VStr (race_type self)
  ∧ (0 <? distance self)%float = true
  ∧ (race_type self = "short" ∨ race_type self = "long")
  ∧ time_multiplier self = 1.2%float.
Proof. by intros (d & l & t & -> & -> & _ & Hd & Ht & ->)%init_Ok. Qed.

Lemma all_validated_spec (h : store) (l : list ref) :
  all_validated h l = true ↔ ∀ r, r ∈ l → validated (h r) = true.
Proof.
  unfold all_validated. rewrite forallb_forall.
  by setoid_rewrite list_elem_of_In.
Qed.

(** The short race: every runner gets a time, and the store is not
    touched. *)
Lemma conduct_short_spec (self : Race) (h : store) (l : list ref) :
  (0 <? distance self)%float = true → all_validated h l = true →
  conduct_short self h l
  = Ok ((λ r, (r, Time (round2 (distance self * 1000 / sprint_speed (h r))
                        * time_multiplier self)%float)) <$> l).
Proof.
  intros Hd. induction l as [|r l IH]; [done|]. simpl.
  intros [Hr Hl]%andb_true_iff.
  by rewrite run_race_short, IH.
Qed.

Lemma same_but_energy_refl (h : store) : same_but_energy h h.
Proof. intros r. exists (energy (h r)). by rewrite set_energy_id. Qed.

Lemma same_but_energy_trans (h1 h2 h3 : store) :
  same_but_energy h1 h2 → same_but_energy h2 h3 → same_but_energy h1 h3.
Proof.
  intros H12 H23 r. destruct (H12 r) as [e1 He1], (H23 r) as [e2 He2].
  exists e2. by rewrite He2, He1.
Qed.

Lemma same_but_energy_lap (h h' : store) (r : ref) :
  same_but_energy h h' → lap (h' r) = lap (h r).
Proof. intros H. destruct (H r) as [e ->]. done. Qed.

(** One runner's marathon. *)
Lemma marathon_runner (km : Z) (h : store) (runner : ref) :
  validated (h runner) = true → 0 ≤ km →
  let e := energy (h runner) in
  let dnf := e <=? 100 * (km - 1) in
  ∃ h',
    run_kilometres (Z.to_nat km) h runner 0
    = Ok (h', if dnf then DNF else Time (laps (h runner) (Z.to_nat km)))
    ∧ energy (h' runner) = (if dnf then 0 else energy_after e km)
    ∧ (∀ r, r ≠ runner → h' r = h r)
    ∧ same_but_energy h h'
    ∧ ∀ r, validated (h r) = true → validated (h' r) = true.
Proof.
  intros Hv Hkm e dnf.
  destruct (run_kilometres_spec (Z.to_nat km) h runner 0 Hv)
    as (h' & Hrun & Hh' & Hframe).
  rewrite Z2Nat.id in Hrun, Hh' by done. fold e dnf in Hrun, Hh'.
  pose proof (proj1 (validated_spec _) Hv) as (_ & _ & ? & ?).
  assert (0 ≤ (if dnf then 0 else energy_after e km) ≤ 1000) as Hrange.
  { destruct dnf; unfold energy_after; subst e; lia. }
  exists h'. split; [done|]. split; [by rewrite Hh'|]. split; [done|].
  split.
  - intros r. destruct (decide (r = runner)) as [->|Hne].
    + eexists. by rewrite Hh'.
    + rewrite Hframe by done. exists (energy (h r)). by rewrite set_energy_id.
  - intros r Hr. destruct (decide (r = runner)) as [->|Hne].
    + rewrite Hh'. by apply validated_set_energy.
    + by rewrite Hframe.
Qed.

Lemma conduct_long_app (self : Race) (h : store) (l1 l2 : list ref) :
  conduct_long self h (l1 ++ l2)
  = ('(h1, res1) ← conduct_long self h l1;
     '(h2, res2) ← conduct_long self h1 l2;
     Ok (h2, res1 ++ res2)).
Proof.
  revert h. induction l1 as [|r l1 IH]; intros h; simpl.
  - by destruct (conduct_long self h l2) as [[??]|].
  - destruct (ceil (distance self)) as [km|]; [|done]. simpl.
    destruct (run_kilometres _ _ _ _) as [[h1 v]|]; [|done]. simpl.
    rewrite IH. destruct (conduct_long self h1 l1) as [[h2 res1]|]; [|done].
    simpl. by destruct (conduct_long self h2 l2) as [[??]|].
Qed.

(** The marathon over a roster of validated runners returns, with one
    entry per runner in order. *)
Lemma conduct_long_returns (self : Race) (km : Z) (l : list ref) (h : store) :
  ceil (distance self) = Ok km → 0 ≤ km → all_validated h l = true →
  ∃ h' result,
    conduct_long self h l = Ok (h', result) ∧ result.*1 = l
    ∧ same_but_energy h h'
    ∧ (∀ r, validated (h r) = true → validated (h' r) = true)
    ∧ ∀ r, r ∉ l → h' r = h r.
Proof.
  intros Hceil Hkm. revert h. induction l as [|r l IH]; intros h Hl.
  - exists h, []. repeat split; try done. apply same_but_energy_refl.
  - simpl in Hl. apply andb_true_iff in Hl as [Hr Hl]. simpl. rewrite Hceil. simpl.
    destruct (marathon_runner km h r Hr Hkm) as (h1 & -> & _ & Hf1 & Hs1 & Hv1).
    simpl. destruct (IH h1) as (h2 & result & -> & Hfst & Hs2 & Hv2 & Hf2).
    { apply all_validated_spec. intros r' Hr'. apply Hv1.
      by apply (proj1 (all_validated_spec h l) Hl). }
    simpl. eexists _, _. split; [done|]. split; [by rewrite <- Hfst|].
    split; [by eapply same_but_energy_trans|]. split; [auto|].
    intros r' [Hne Hnotin]%not_elem_of_cons.
    rewrite Hf2 by done. by apply Hf1.
Qed.

End race_facts.

(** C7 (amended): a short race built by [ShortRace], whatever roster of
    validated runners it then holds, gives every roster member, in order,
    the time [run_race("short", distance) * 1.2], that is [round(distance *
    1000 / sprint_speed, 2) * 1.2]; no result is DNF, and the store is
    returned as it was, so no energy changes.  The time is a float, which
    for a distance large enough is the infinity. *)
Theorem C7_short_race_times (dv : pyval) (ra : option (list pyval))
    (self : Race) (roster : list ref) (h : store) :
  ShortRace dv ra = Ok self →
  all_validated h roster = true →
  conduct_race (set_runners self roster) h
  = Ok (h, (λ r, (r, Time (round2 (distance self * 1000 / sprint_speed (h r))
                           * 1.2)%float)) <$> roster)
  ∧ (∀ r, r ∈ roster →
       run_race (h r) (VStr "short") (VFloat (distance self))
       = Ok (round2 (distance self * 1000 / sprint_speed (h r))%float))
  ∧ ∀ result h', conduct_race (set_runners self roster) h = Ok (h', result) →
       Forall (λ x, is_DNF x.2 = false) result.
Proof.
  intros (_ & [= Ht] & Hd & _ & Hm)%init_fields Hv.
  assert (conduct_race (set_runners self roster) h
          = Ok (h, (λ r, (r, Time (round2 (distance self * 1000 / sprint_speed (h r))
                                   * 1.2)%float)) <$> roster)) as Hrun.
  { unfold conduct_race. simpl. rewrite <- Ht. simpl.
    rewrite conduct_short_spec by done. simpl. by rewrite Hm. }
  split; [done|]. split.
  - intros r Hr. apply run_race_short; [|done].
    by apply (proj1 (all_validated_spec h roster) Hv).
  - intros result h'. rewrite Hrun. intros [= <- <-].
    by apply Forall_fmap, Forall_forall.
Qed.

(** C7, at an instance: the short race of 0.5 km of the example in [race.py], run by Elijah and Rupert. *)
Lemma C7_short_race_times_witness :
  ShortRace (VFloat 0.5) None = Ok (mkRace 0.5 [] "short" 100 8 1.2)
  ∧ all_validated scenario.store0 [0; 1]%nat = true
  ∧ conduct_race (set_runners (mkRace 0.5 [] "short" 100 8 1.2) [0; 1]%nat)
                 scenario.store0
    = Ok (scenario.store0, [(0%nat, Time 92.304); (1%nat, Time 260.868)]).
Proof.
  split; [reflexivity|]. split; [reflexivity|].
  apply (C7_short_race_times (VFloat 0.5) None (mkRace 0.5 [] "short" 100 8 1.2)
           [0; 1]%nat scenario.store0); reflexivity.
Defined.

(** C7, the claim as stated fails: over a distance of 1e306 km, which
    [ShortRace] accepts, Elijah's time is the float infinity. *)
Lemma C7_time_can_be_infinite :
  ShortRace (VFloat 1e306) (Some [VRunner 0%nat])
  = Ok (mkRace 1e306 [0%nat] "short" 100 8 1.2)
  ∧ all_validated scenario.store0 [0%nat] = true
  ∧ conduct_race (mkRace 1e306 [0%nat] "short" 100 8 1.2) scenario.store0
    = Ok (scenario.store0, [(0%nat, Time infinity)])
  ∧ is_finite infinity = false.
Proof. repeat split; vm_compute; reflexivity. Qed.

(** C2 (amended): a marathon built by [MarathonRace] whose distance is
    finite, whatever roster of validated runners it then holds, returns one
    [(runner, result)] pair per roster member in roster order.  With [km =
    ceil(distance)], which is at least 1, and [e] the energy of a runner
    when their turn comes (the energy at the start of the race for a runner
    that does not occur earlier in the roster), the result is DNF exactly
    when the energy is 0 after fewer than [km] kilometres of 100 energy
    each, and otherwise it is the time of [km] kilometres, each adding
    [run_race("long", 1.0)]; a runner with exactly [100 * km] energy
    finishes; the runner is left with no energy after a DNF and with [e -
    100 * km], clamped at 0, otherwise. *)
Theorem C2_marathon_results (dv : pyval) (ra : option (list pyval))
    (self : Race) (roster : list ref) (h : store) :
  MarathonRace dv ra = Ok self →
  is_finite (distance self) = true →
  all_validated h roster = true →
  ∃ km h' result,
    ceil (distance self) = Ok km ∧ 1 ≤ km
    ∧ conduct_race (set_runners self roster) h = Ok (h', result)
    ∧ result.*1 = roster
    ∧ ∀ l1 runner l2, roster = l1 ++ runner :: l2 →
        ∃ h1 res1 v res2,
          conduct_race (set_runners self l1) h = Ok (h1, res1)
          ∧ result = res1 ++ (runner, v) :: res2
          ∧ (runner ∉ l1 → h1 runner = h runner)
          ∧ (v = DNF ↔ ∃ j, 0 ≤ j < km ∧ energy_after (energy (h1 runner)) j = 0)
          ∧ (v ≠ DNF → v = Time (laps (h runner) (Z.to_nat km)))
          ∧ run_race (h1 runner) (VStr "long") (VFloat 1) = Ok (lap (h runner))
          ∧ (energy (h1 runner) = 100 * km → v ≠ DNF)
          ∧ (runner ∉ l2 →
             energy (h' runner)
             = if is_DNF v then 0 else energy_after (energy (h1 runner)) km).
Proof.
  intros (_ & [= Ht] & Hd & _ & _)%init_fields Hfin Hv.
  pose proof (ceil_positive _ Hd) as Hceil. rewrite Hfin in Hceil.
  destruct Hceil as (km & Hceil & Hkm).
  assert (∀ l, conduct_race (set_runners self l) h = conduct_long self h l) as Hlong.
  { intros l. unfold conduct_race. simpl. rewrite <- Ht. simpl.
    generalize l at 1. intros l0.
    clear. revert h. induction l as [|r l IH]; intros h; [done|]. simpl.
    destruct (ceil (distance self)); [|done]. simpl.
    destruct (run_kilometres _ _ _ _) as [[h1 v]|]; [|done]. simpl.
    by rewrite IH. }
  destruct (conduct_long_returns self km roster h Hceil ltac:(lia) Hv)
    as (h' & result & Hrun & Hfst & _ & _ & _).
  exists km, h', result. rewrite !Hlong. split_and!; try done.
  intros l1 runner l2 ->. rewrite Hlong.
  rewrite conduct_long_app in Hrun.
  assert (all_validated h l1 = true) as Hv1.
  { apply all_validated_spec. intros r Hr.
    apply (proj1 (all_validated_spec _ _) Hv). set_solver. }
  destruct (conduct_long_returns self km l1 h Hceil ltac:(lia) Hv1)
    as (h1 & res1 & Hrun1 & _ & Hs1 & Hval1 & Hf1).
  rewrite Hrun1 in Hrun. simpl in Hrun. rewrite Hceil in Hrun. simpl in Hrun.
  assert (validated (h1 runner) = true) as Hvr.
  { apply Hval1, (proj1 (all_validated_spec _ _) Hv). set_solver. }
  destruct (marathon_runner km h1 runner Hvr ltac:(lia))
    as (h2 & Hkms & He2 & Hf2 & Hs2 & Hval2).
  rewrite Hkms in Hrun. simpl in Hrun.
  assert (all_validated h2 l2 = true) as Hv2.
  { apply all_validated_spec. intros r Hr.
    apply Hval2, Hval1, (proj1 (all_validated_spec _ _) Hv). set_solver. }
  destruct (conduct_long_returns self km l2 h2 Hceil ltac:(lia) Hv2)
    as (h3 & res2 & Hrun2 & _ & _ & _ & Hf3).
  rewrite Hrun2 in Hrun. simpl in Hrun. injection Hrun as <- <-.
  pose proof (proj1 (validated_spec _) Hvr) as (_ & _ & ? & ?).
  eexists h1, res1, _, res2. split_and!; try done.
  - apply Hf1.
  - destruct (Z.leb_spec (energy (h1 runner)) (100 * (km - 1))).
    + split; [|done]. intros _. exists (km - 1). unfold energy_after. lia.
    + split; [done|]. intros (j & Hj & Hz). unfold energy_after in Hz. lia.
  - destruct (_ <=? _); [done|]. intros _.
    unfold laps. by rewrite (same_but_energy_lap h h1).
  - by rewrite run_race_long, (same_but_energy_lap h h1).
  - intros He. destruct (Z.leb_spec (energy (h1 runner)) (100 * (km - 1)));
      [lia|done].
  - intros Hnotin. rewrite Hf3 by done. rewrite He2.
    by destruct (_ <=? _).
Qed.

(** C2, at an instance: a marathon of 4.5 km between Elijah without energy and Rupert. *)
Lemma C2_marathon_results_witness :
  MarathonRace (VFloat 4.5) None = Ok (mkRace 4.5 [] "long" 100 16 1.2)
  ∧ is_finite 4.5 = true
  ∧ all_validated scenario.store2 [0; 1]%nat = true
  ∧ ∃ km h' result,
      ceil 4.5 = Ok km ∧ 1 ≤ km
      ∧ conduct_race (set_runners (mkRace 4.5 [] "long" 100 16 1.2) [0; 1]%nat)
                     scenario.store2
        = Ok (h', result)
      ∧ result.*1 = [0; 1]%nat.
Proof.
  split; [reflexivity|]. split; [reflexivity|]. split; [reflexivity|].
  destruct (C2_marathon_results (VFloat 4.5) None
              (mkRace 4.5 [] "long" 100 16 1.2) [0; 1]%nat scenario.store2
              eq_refl eq_refl eq_refl)
    as (km & h' & result & Hceil & Hkm & Hrun & Hfst & _).
  exists km, h', result. repeat split; assumption.
Defined.

(** The marathon of the witness, run: over 4.5 km, that is 5 kilometres,
    Elijah, who starts without energy, does not finish, and Rupert does, in
    5 times 526.32 seconds and with 500 energy left. *)
Example marathon_4_5_km :
  match conduct_race (mkRace 4.5 [0; 1]%nat "long" 100 16 1.2) scenario.store2 with
  | Ok (h', result) =>
      result = [(0%nat, DNF); (1%nat, Time 2631.6000000000004)]
      ∧ energy (h' 0%nat) = 0 ∧ energy (h' 1%nat) = 500
  | Raise _ => False
  end.
Proof. vm_compute. repeat split; reflexivity. Qed.

(** C2, the claim as stated fails: [MarathonRace] accepts the positive
    float infinity as a distance, and then [math.ceil] raises in
    [conduct_race] instead of a result list being returned. *)
Lemma C2_infinite_marathon_raises :
  MarathonRace (VFloat infinity) (Some [VRunner 0%nat])
  = Ok (mkRace infinity [0%nat] "long" 100 16 1.2)
  ∧ (0 <? infinity)%float = true
  ∧ all_validated scenario.store0 [0%nat] = true
  ∧ conduct_race (mkRace infinity [0%nat] "long" 100 16 1.2) scenario.store0
    = Raise OverflowError.
Proof. repeat split; vm_compute; reflexivity. Qed.

Section conduct_race_returns.

Lemma conduct_race_short (self : Race) (h : store) :
  race_type self = "short" → (0 <? distance self)%float = true →
  all_validated h (race.runners self) = true →
  is_ok (conduct_race self h) = true.
Proof.
  intros Ht Hd Hv. unfold conduct_race. rewrite Ht. simpl.
  by rewrite conduct_short_spec.
Qed.

Lemma conduct_race_long (self : Race) (h : store) :
  race_type self = "long" → (0 <? distance self)%float = true →
  all_validated h (race.runners self) = true →
  if is_finite (distance self) then is_ok (conduct_race self h) = true
  else race.runners self = [] ∨ conduct_race self h = Raise OverflowError.
Proof.
  intros Ht Hd Hv. unfold conduct_race. rewrite Ht. simpl.
  pose proof (ceil_positive _ Hd) as Hceil.
  destruct (is_finite (distance self)).
  - destruct Hceil as (km & Hceil & Hkm).
    by destruct (conduct_long_returns self km _ h Hceil ltac:(lia) Hv)
      as (h' & result & -> & _).
  - destruct (race.runners self) as [|r l]; [by left|right].
    simpl. by rewrite Hceil.
Qed.

End conduct_race_returns.

(** C10 (amended): for a race that the constructor returned, whatever
    roster of validated runners it then holds, the calls [conduct_race]
    makes satisfy their callees' checks: [run_race("short", distance)],
    [run_race("long", 1.0)] and [drain_energy(100)] return on every
    validated runner.  [conduct_race] returns when the distance is finite;
    when it raises, the race is a marathon over the infinite distance and
    the exception is the [OverflowError] of [math.ceil]. *)
Theorem C10_conduct_race_raises_only_on_infinity (dv : pyval)
    (ra : option (list pyval)) (tv : pyval) (self : Race) (roster : list ref)
    (h : store) :
  race.init dv ra tv = Ok self →
  all_validated h roster = true →
  (is_finite (distance self) = true →
   is_ok (conduct_race (set_runners self roster) h) = true)
  ∧ (∀ x, conduct_race (set_runners self roster) h = Raise x →
       x = OverflowError ∧ race_type self = "long"
       ∧ is_finite (distance self) = false)
  ∧ ∀ r, validated r = true →
      is_ok (run_race r (VStr "short") (VFloat (distance self))) = true
      ∧ is_ok (run_race r (VStr "long") (VFloat 1)) = true
      ∧ is_ok (drain_energy r (VInt 100)) = true.
Proof.
  intros (_ & _ & Hd & Ht & _)%init_fields Hv.
  assert (is_finite (distance self) = true ∨ race_type self = "short" →
          is_ok (conduct_race (set_runners self roster) h) = true) as Hok.
  { intros Hcase. destruct Ht as [Ht|Ht].
    - by apply conduct_race_short.
    - destruct Hcase as [Hfin|Hshort]; [|congruence].
      pose proof (conduct_race_long (set_runners self roster) h Ht Hd Hv) as H.
      simpl in H. by rewrite Hfin in H. }
  split; [auto|]. split.
  - intros x Hx. destruct Ht as [Ht|Ht].
    { specialize (Hok (or_intror Ht)). by rewrite Hx in Hok. }
    pose proof (conduct_race_long (set_runners self roster) h Ht Hd Hv) as H.
    simpl in H. destruct (is_finite (distance self)).
    + rewrite Hx in H. done.
    + destruct H as [->|H]; [|by rewrite H in Hx; injection Hx as <-].
      unfold conduct_race in Hx. simpl in Hx. rewrite Ht in Hx. done.
  - intros r Hr.
    by rewrite run_race_short, run_race_long, drain_100.
Qed.

(** C10, at an instance: the marathon of 5 km of the example in [race.py]. *)
Lemma C10_conduct_race_raises_only_on_infinity_witness :
  race.init (VFloat 5) (Some [VRunner 0%nat; VRunner 1%nat]) (VStr "long")
  = Ok (mkRace 5 [0; 1]%nat "long" 100 16 1.2)
  ∧ all_validated scenario.store0 [0; 1]%nat = true
  ∧ is_finite 5 = true
  ∧ is_ok (conduct_race (mkRace 5 [0; 1]%nat "long" 100 16 1.2) scenario.store0)
    = true.
Proof.
  split; [reflexivity|]. split; [reflexivity|]. split; [reflexivity|].
  apply (C10_conduct_race_raises_only_on_infinity
           (VFloat 5) (Some [VRunner 0%nat; VRunner 1%nat]) (VStr "long")
           (mkRace 5 [0; 1]%nat "long" 100 16 1.2) [0; 1]%nat scenario.store0);
    reflexivity.
Defined.

(** C10, the claim as stated fails: the constructor returns a race over
    the infinite distance, with a roster of two validated runners, and
    [conduct_race] raises on it. *)
Lemma C10_conduct_race_can_raise :
  race.init (VFloat infinity) (Some [VRunner 0%nat; VRunner 1%nat]) (VStr "long")
  = Ok (mkRace infinity [0; 1]%nat "long" 100 16 1.2)
  ∧ all_validated scenario.store0 [0; 1]%nat = true
  ∧ conduct_race (mkRace infinity [0; 1]%nat "long" 100 16 1.2) scenario.store0
    = Raise OverflowError.
Proof. repeat split; vm_compute; reflexivity. Qed.

(** ** [sorted] *)

Section sorted_facts.
Context {A : Type}.
Implicit Types (lt : A → A → res bool) (ltb : A → A → bool) (l acc : list A).

(** Whatever the comparison, a sort that returns returns a permutation. *)
Lemma insort_Permutation lt x l l' :
  insort lt x l = Ok l' → l' ≡ₚ x :: l.
Proof.
  revert l'. induction l as [|y l IH]; intros l'; simpl.
  - by intros [= <-].
  - destruct (lt x y) as [[]|]; simpl; try done.
    + by intros [= <-].
    + destruct (insort lt x l) as [l''|]; simpl; [|done].
      intros [= <-]. rewrite (IH l'' eq_refl). apply Permutation_swap.
Qed.

Lemma sort_onto_Permutation lt acc l l' :
  sort_onto lt acc l = Ok l' → l' ≡ₚ acc ++ l.
Proof.
  revert acc. induction l as [|x l IH]; intros acc; simpl.
  - intros [= <-]. by rewrite app_nil_r.
  - destruct (insort lt x acc) as [acc'|] eqn:Hins; simpl; [|done].
    intros ->%IH. rewrite (insort_Permutation _ _ _ _ Hins).
    apply Permutation_middle.
Qed.

Lemma sorted_Permutation lt l l' : sorted lt l = Ok l' → l' ≡ₚ l.
Proof. apply sort_onto_Permutation. Qed.

(** Where the comparison does not raise, [sorted] is the pure sort. *)
Lemma insort_pure_Permutation ltb x l : insort_pure ltb x l ≡ₚ x :: l.
Proof.
  induction l as [|y l IH]; simpl; [done|].
  destruct (ltb x y); [done|]. rewrite IH. apply Permutation_swap.
Qed.

Lemma insort_is_pure lt ltb x l :
  (∀ y, y ∈ l → lt x y = Ok (ltb x y)) →
  insort lt x l = Ok (insort_pure ltb x l).
Proof.
  induction l as [|y l IH]; intros Hlt; simpl; [done|].
  rewrite Hlt by set_solver. simpl. destruct (ltb x y); [done|].
  rewrite IH; [done|]. intros z Hz. apply Hlt. set_solver.
Qed.

Lemma sort_onto_is_pure lt ltb acc l :
  (∀ x y, x ∈ acc ++ l → y ∈ acc ++ l → lt x y = Ok (ltb x y)) →
  sort_onto lt acc l = Ok (foldl (λ acc x, insort_pure ltb x acc) acc l).
Proof.
  revert acc. induction l as [|x l IH]; intros acc Hlt; simpl; [done|].
  rewrite (insort_is_pure lt ltb) by (intros; apply Hlt; set_solver).
  simpl. apply IH.
  assert (∀ y, y ∈ insort_pure ltb x acc ++ l → y ∈ acc ++ x :: l) as Hsub.
  { intros y. rewrite !elem_of_app, insort_pure_Permutation, !elem_of_cons. tauto. }
  auto.
Qed.

Lemma sorted_is_pure lt ltb l :
  (∀ x y, x ∈ l → y ∈ l → lt x y = Ok (ltb x y)) →
  sorted lt l = Ok (sorted_pure ltb l).
Proof. intros H. by apply (sort_onto_is_pure lt ltb [] l). Qed.

(** The pure sort orders: with a transitive, irreflexive [ltb], nothing in
    the result is less than something before it. *)
Section ordered.
Context (ltb : A → A → bool).
Hypothesis ltb_irrefl : ∀ x, ltb x x = false.
Hypothesis ltb_trans : ∀ x y z, ltb x y = true → ltb y z = true → ltb x z = true.

Lemma insort_pure_sorted x l :
  StronglySorted (not_before ltb) l →
  StronglySorted (not_before ltb) (insort_pure ltb x l).
Proof.
  induction 1 as [|y l Hl IH Hy]; simpl.
  - repeat constructor.
  - destruct (ltb x y) eqn:Hxy.
    + constructor; [by constructor|]. constructor.
      * unfold not_before. destruct (ltb y x) eqn:Hyx; [|done].
        by rewrite <- (ltb_irrefl x), (ltb_trans x y x).
      * eapply Forall_impl; [exact Hy|]. intros z Hz. unfold not_before in *.
        destruct (ltb z x) eqn:Hzx; [|done].
        by rewrite <- Hz, (ltb_trans z x y).
    + constructor; [done|]. rewrite insort_pure_Permutation. by constructor.
Qed.

Lemma sorted_pure_sorted l :
  StronglySorted (not_before ltb) (sorted_pure ltb l).
Proof.
  unfold sorted_pure. generalize (SSorted_nil (not_before ltb)).
  generalize (@nil A). induction l as [|x l IH]; intros acc Hacc; [done|].
  simpl. by apply IH, insort_pure_sorted.
Qed.
End ordered.

Lemma sorted_pure_Permutation ltb l : sorted_pure ltb l ≡ₚ l.
Proof.
  unfold sorted_pure. rewrite <- (app_nil_l l) at 2.
  generalize (@nil A). induction l as [|x l IH]; intros acc; simpl.
  - by rewrite app_nil_r.
  - rewrite IH, insort_pure_Permutation. apply Permutation_middle.
Qed.

End sorted_facts.

(** ** Sorting race results *)

Section sorting_results.
Implicit Types (x y : ref * taken_time) (l acc results : list (ref * taken_time)).


Lemma by_time_other_kind x y :
  is_DNF x.2 ≠ is_DNF y.2 → by_time x y = Raise TypeError.
Proof. unfold by_time. by destruct x.2, y.2. Qed.




(** A sort that returns has compared results of one kind only. *)
Lemma insort_kind x acc acc' (k : bool) :
  acc ≠ [] → (∀ y, y ∈ acc → is_DNF y.2 = k) →
  insort by_time x acc = Ok acc' → is_DNF x.2 = k.
Proof.
  destruct acc as [|y acc]; [done|]. intros _ Hk. simpl.
  destruct (decide (is_DNF x.2 = is_DNF y.2)) as [Heq|Hne].
  - intros _. rewrite Heq. apply Hk. set_solver.
  - by rewrite by_time_other_kind.
Qed.

Lemma sort_onto_kind acc l l' (k : bool) :
  acc ≠ [] → (∀ y, y ∈ acc → is_DNF y.2 = k) →
  sort_onto by_time acc l = Ok l' → ∀ y, y ∈ l → is_DNF y.2 = k.
Proof.
  revert acc. induction l as [|x l IH]; intros acc Hne Hk; simpl; [set_solver|].
  destruct (insort by_time x acc) as [acc'|] eqn:Hins; [|done]. simpl.
  pose proof (insort_kind _ _ _ _ Hne Hk Hins) as Hx.
  pose proof (insort_Permutation _ _ _ _ Hins) as Hperm.
  intros Hsort y [->|Hy]%elem_of_cons; [done|].
  eapply (IH acc'); [| |done..].
  - intros ->. by apply Permutation_nil_cons in Hperm.
  - intros z. rewrite Hperm. intros [->|?]%elem_of_cons; auto.
Qed.

Lemma sorted_Ok_one_kind results l' :
  sorted by_time results = Ok l' →
  all_finished results = true ∨ all_DNF results = true.
Proof.
  destruct results as [|x l]; [by left|]. intros Hsort.
  unfold sorted in Hsort. simpl in Hsort.
  assert (∀ y, y ∈ x :: l → is_DNF y.2 = is_DNF x.2) as Hk.
  { intros y [->|Hy]%elem_of_cons; [done|].
    eapply (sort_onto_kind [x]); [done| |done..]. by intros ? ->%list_elem_of_singleton. }
  unfold all_finished, all_DNF. rewrite !forallb_forall.
  destruct (is_DNF x.2); [right|left]; intros y Hy%list_elem_of_In;
    by rewrite (Hk y Hy).
Qed.

Lemma sorted_raises_TypeError results (e : exn) :
  sorted by_time results = Raise e → e = TypeError.
Proof.
  unfold sorted. generalize (@nil (ref * taken_time)).
  induction results as [|x l IH]; intros acc; simpl; [done|].
  destruct (insort by_time x acc) as [acc'|e'] eqn:Hins; simpl; [apply IH|].
  intros [= <-]. clear IH. induction acc as [|y acc IH]; simpl in Hins; [done|].
  unfold by_time at 1 in Hins.
  destruct x.2, y.2; simpl in Hins; try by injection Hins.
  - destruct (_ <? _)%float; [done|].
    destruct (insort by_time x acc); [done|]. apply IH. by injection Hins as ->.
  - destruct (insort by_time x acc); [done|]. apply IH. by injection Hins as ->.
Qed.

End sorting_results.

(** C1: results that hold a numeric time and a DNF make [update_leaderboard]
    raise: [sorted] compares a float with the string ["DNF"], which is a
    [TypeError]. *)
Theorem C1_mixed_results_raise_TypeError (lb : board) (h : store)
    (results : list (ref * taken_time)) :
  all_finished results = false →
  all_DNF results = false →
  update_leaderboard lb h results = Raise TypeError.
Proof.
  intros Hfin Hdnf. unfold update_leaderboard.
  destruct (sorted _ results) as [l'|e] eqn:Hsort.
  - apply (sorted_Ok_one_kind results l') in Hsort as [?|?]; congruence.
  - by apply sorted_raises_TypeError in Hsort as ->.
Qed.

(** C1, at an instance: the results of a finisher and of a runner who did not finish. *)
Lemma C1_mixed_results_raise_TypeError_witness :
  all_finished [(0%nat, Time 307.69); (1%nat, DNF)] = false
  ∧ all_DNF [(0%nat, Time 307.69); (1%nat, DNF)] = false
  ∧ update_leaderboard [("1st", None); ("2nd", None)] scenario.store0
      [(0%nat, Time 307.69); (1%nat, DNF)]
    = Raise TypeError.
Proof.
  split; [reflexivity|]. split; [reflexivity|].
  apply (C1_mixed_results_raise_TypeError [("1st", None); ("2nd", None)]
           scenario.store0 [(0%nat, Time 307.69); (1%nat, DNF)]);
    reflexivity.
Defined.

(** A competition in which it happens: of the two runners of the marathon
    of 2 km, Elijah starts without energy and does not finish, Rupert
    does, and folding in the results raises. *)
Example mixed_marathon_stops_the_competition :
  all_validated scenario.store2 (runners scenario.duel) = true
  ∧ snd <$> returned (run_races scenario.duel scenario.store2)
    = Some [(0%nat, DNF); (1%nat, Time 1052.64)]
  ∧ conduct_competition scenario.duel scenario.store2 = Raise TypeError.
Proof. repeat split; vm_compute; reflexivity. Qed.

(** ** The roster invariant *)

Section roster_facts.

Lemma roster_invariant_spec (self : Race) :
  roster_invariant self = true ↔
  Z.of_nat (length (race.runners self)) ≤ maximum_participants self
  ∧ NoDup (race.runners self).
Proof.
  unfold roster_invariant. rewrite andb_true_iff, Z.leb_le, bool_decide_eq_true.
  done.
Qed.

(** [add_runner] and [remove_runner] check what they must to keep the
    invariant. *)
Lemma add_runner_invariant (self self' : Race) (runner : pyval) :
  roster_invariant self = true → add_runner self runner = Ok self' →
  roster_invariant self' = true.
Proof.
  rewrite !roster_invariant_spec. intros [Hlen Hnodup]. unfold add_runner.
  destruct (as_runner runner) as [r|]; [|done].
  destruct (Z.leb_spec (maximum_participants self)
                       (Z.of_nat (length (race.runners self)))); [done|].
  destruct (bool_decide_reflect (r ∈ race.runners self)) as [|Hnotin]; [done|].
  intros [= <-]. simpl. rewrite length_app. simpl. split; [lia|].
  apply NoDup_app. split; [done|]. split; [|apply NoDup_singleton].
  by intros x Hx ->%list_elem_of_singleton.
Qed.

Lemma list_remove_first_sublist (x : ref) (l : list ref) :
  list_remove_first x l `sublist_of` l.
Proof.
  induction l as [|y l IH]; simpl; [done|].
  destruct (decide (x = y)); [by apply sublist_cons|by apply sublist_skip].
Qed.

Lemma remove_runner_invariant (self self' : Race) (runner : pyval) :
  roster_invariant self = true → remove_runner self runner = Ok self' →
  roster_invariant self' = true.
Proof.
  rewrite !roster_invariant_spec. intros [Hlen Hnodup]. unfold remove_runner.
  destruct (as_runner runner) as [r|]; [|done].
  destruct (bool_decide (r ∈ race.runners self)); [|done].
  intros [= <-]. simpl.
  pose proof (list_remove_first_sublist r (race.runners self)) as Hsub.
  split; [|by eapply sublist_NoDup].
  apply sublist_length in Hsub. lia.
Qed.

End roster_facts.

(** C6: the constructor does not check what [add_runner] checks.
    [ShortRace] returns a race with nine runners, one more than its
    [maximum_participants], and [MarathonRace] one with the same runner
    twice; and a competition of nine runners, which [Competition.__init__]
    accepts, races them all in its short race. *)
Theorem C6_constructor_breaks_roster_invariant :
  ShortRace (VFloat 1) (Some scenario.nine_runners)
  = Ok (mkRace 1 (seq 0 9) "short" 100 8 1.2)
  ∧ roster_invariant (mkRace 1 (seq 0 9) "short" 100 8 1.2) = false
  ∧ MarathonRace (VFloat 1) (Some [VRunner 0%nat; VRunner 0%nat])
    = Ok (mkRace 1 [0; 0]%nat "long" 100 16 1.2)
  ∧ roster_invariant (mkRace 1 [0; 0]%nat "long" 100 16 1.2) = false
  ∧ competition.init scenario.nine_runners (VInt 1) [VFloat 1] [VFloat 1]
    = Ok (mkCompetition (seq 0 9) 1 [1%float] [1%float]
            ((λ i, (get_ordinal i, None)) <$> seqZ 1 9))
  ∧ is_ok (run_races (mkCompetition (seq 0 9) 1 [1%float] [1%float]
                        ((λ i, (get_ordinal i, None)) <$> seqZ 1 9))
                     scenario.store0) = true.
Proof. repeat split; vm_compute; reflexivity. Qed.

(** ** Dictionaries *)

Section dict_facts.
Context {V : Type}.
Implicit Types (d : dict V) (k : string) (v : V).

Lemma keys_length d : length (keys d) = length d.
Proof. apply length_fmap. Qed.

Lemma dict_get_None d k : dict_get d k = None ↔ k ∉ keys d.
Proof.
  induction d as [|[k' v'] d IH]; simpl; [set_solver|].
  rewrite not_elem_of_cons. destruct (decide (k = k')); [|tauto].
  split; [done|]. by intros [].
Qed.

Lemma dict_get_Some d k v : dict_get d k = Some v → (k, v) ∈ d.
Proof.
  induction d as [|[k' v'] d IH]; simpl; [done|].
  destruct (decide (k = k')) as [->|]; [intros [= ->]|]; set_solver.
Qed.

Lemma dict_get_NoDup d k v : NoDup (keys d) → (k, v) ∈ d → dict_get d k = Some v.
Proof.
  induction d as [|[k' v'] d IH]; simpl; [set_solver|].
  intros [Hk' Hd]%NoDup_cons [[= -> ->]|Hin]%elem_of_cons.
  - by rewrite decide_True.
  - rewrite decide_False; [by apply IH|].
    intros ->. apply Hk'. unfold keys. apply list_elem_of_fmap. by exists (k', v).
Qed.

Lemma dict_set_fresh d k v : k ∉ keys d → dict_set k v d = d ++ [(k, v)].
Proof.
  induction d as [|[k' v'] d IH]; simpl; [done|].
  intros [Hne Hnotin]%not_elem_of_cons. rewrite decide_False by done.
  by rewrite IH.
Qed.

Lemma dict_set_keys d k v : k ∈ keys d → keys (dict_set k v d) = keys d.
Proof.
  induction d as [|[k' v'] d IH]; simpl; [set_solver|].
  destruct (decide (k = k')) as [->|Hne]; [done|].
  intros [?|Hin]%elem_of_cons; [done|]. simpl. by rewrite IH.
Qed.

Lemma dict_get_set d k k' v :
  dict_get (dict_set k v d) k' = if decide (k' = k) then Some v else dict_get d k'.
Proof.
  induction d as [|[k0 v0] d IH]; simpl.
  - by destruct (decide (k' = k)).
  - destruct (decide (k = k0)) as [->|Hne]; simpl.
    + by destruct (decide (k' = k0)).
    + destruct (decide (k' = k0)) as [->|]; [by rewrite decide_False|done].
Qed.

(** Assigning to the key at place [i] changes the item at place [i]. *)
Lemma dict_set_insert d (i : nat) k v v0 :
  NoDup (keys d) → d !! i = Some (k, v0) → dict_set k v d = <[i := (k, v)]> d.
Proof.
  revert i. induction d as [|[k' v'] d IH]; intros i; simpl; [done|].
  intros [Hk' Hd]%NoDup_cons. destruct i as [|i]; simpl.
  - intros [= -> ->]. by rewrite decide_True.
  - intros Hi. rewrite decide_False; [by rewrite (IH i)|].
    intros ->. apply Hk'. unfold keys. apply list_elem_of_fmap.
    exists (k', v0). split; [done|]. by eapply list_elem_of_lookup_2.
Qed.

End dict_facts.

(** ** Points by rank *)

Section points_facts.
Implicit Types (h : store) (l results : list (ref * taken_time)).

(** The items of [name2score] when the runners have different names: one
    per result, in the order of the results. *)
Lemma race_scores_from h (n : nat) l (acc : dict Z) (f : nat → Z) :
  NoDup (keys acc ++ names h l) →
  foldl (λ d '(i, (runner, taken_time)),
           dict_set (name (h runner)) (points_at n i taken_time) d)
        acc (imap (λ i x, (f i, x)) l)
  = acc ++ imap (λ i x, (name (h x.1), points_at n (f i) x.2)) l.
Proof.
  revert acc f. induction l as [|[r t] l IH]; intros acc f Hnodup; simpl.
  - by rewrite app_nil_r.
  - simpl in Hnodup. rewrite dict_set_fresh.
    2:{ apply NoDup_app in Hnodup as (_ & Hdisj & _). intros Hin.
        apply (Hdisj _ Hin). by apply elem_of_cons; left. }
    etrans; [apply (IH _ (f ∘ S))|by rewrite <- app_assoc].
    unfold keys in *. by rewrite fmap_app, <- app_assoc.
Qed.

Lemma race_scores_NoDup h (n : nat) l :
  NoDup (names h l) →
  race_scores h n l = imap (λ i x, (name (h x.1), points_at n (Z.of_nat i) x.2)) l.
Proof.
  intros Hnodup. unfold race_scores, enumerate.
  by rewrite (race_scores_from h n l [] Z.of_nat).
Qed.

Lemma race_scores_keys h (n : nat) l :
  NoDup (names h l) → keys (race_scores h n l) = names h l.
Proof.
  intros Hnodup. rewrite race_scores_NoDup by done. unfold keys, names.
  apply list_eq. intros i.
  rewrite !list_lookup_fmap, list_lookup_imap. by destruct (l !! i).
Qed.

End points_facts.



(** The points of the witness: Elijah, the faster, has 1 and Rupert 0. *)
Example points_of_two_finishers :
  sorted by_time [(1%nat, Time 521.74); (0%nat, Time 184.62)]
  = Ok [(0%nat, Time 184.62); (1%nat, Time 521.74)]
  ∧ race_scores scenario.store0 2 [(0%nat, Time 184.62); (1%nat, Time 521.74)]
    = [("Elijah", 1); ("Rupert", 0)].
Proof. split; vm_compute; reflexivity. Qed.


(** ** A round of the competition *)

Section round_facts.
Implicit Types (h : store) (self : Competition) (results : list (ref * taken_time)).

Lemma conduct_race_returned (r : Race) h h' results (l : list ref) :
  (0 <? distance r)%float = true →
  race_type r = "short" ∨ race_type r = "long" →
  all_validated h l = true →
  conduct_race (set_runners r l) h = Ok (h', results) →
  results.*1 = l
  ∧ same_but_energy h h'
  ∧ ∀ x, validated (h x) = true → validated (h' x) = true.
Proof.
  intros Hd Ht Hv. unfold conduct_race. simpl. destruct Ht as [->| ->]; simpl.
  - rewrite conduct_short_spec by done. simpl. intros [= <- <-].
    split; [|split; [apply same_but_energy_refl|done]].
    rewrite <- list_fmap_compose. apply list_fmap_id.
  - pose proof (ceil_positive _ Hd) as Hceil.
    destruct (is_finite (distance r)).
    + destruct Hceil as (km & Hceil & Hkm).
      destruct (conduct_long_returns (set_runners r l) km l h Hceil ltac:(lia) Hv)
        as (h1 & res & -> & Hfst & Hs & Hval & _).
      by intros [= <- <-].
    + destruct l as [|x l]; simpl; [|by rewrite Hceil].
      intros [= <- <-]. split; [done|]. split; [apply same_but_energy_refl|done].
Qed.

Lemma run_races_returned self h h2 short_result marathon_result :
  all_validated h (runners self) = true →
  run_races self h = Ok (h2, short_result, marathon_result) →
  short_result.*1 = runners self ∧ marathon_result.*1 = runners self
  ∧ same_but_energy h h2
  ∧ ∀ x, validated (h x) = true → validated (h2 x) = true.
Proof.
  intros Hv. unfold run_races.
  destruct (distances_short self !! 0%nat) as [ds|]; [|done]. simpl.
  destruct (ShortRace (VFloat ds) _) as [sr|] eqn:Hsr; [|done]. simpl.
  apply init_fields in Hsr as (_ & [= Hts] & Hds & _ & _).
  destruct (conduct_race (set_runners sr _) h) as [[h1 sres]|] eqn:Hshort; [|done].
  simpl.
  apply conduct_race_returned in Hshort as (Hfst1 & Hs1 & Hv1); auto.
  destruct (distances_marathon self !! 0%nat) as [dm|]; [|done]. simpl.
  destruct (MarathonRace (VFloat dm) _) as [mr|] eqn:Hmr; [|done]. simpl.
  apply init_fields in Hmr as (_ & [= Htm] & Hdm & _ & _).
  destruct (conduct_race (set_runners mr _) h1) as [[h2' mres]|] eqn:Hlong; [|done].
  simpl. intros [= <- <- <-].
  apply conduct_race_returned in Hlong as (Hfst2 & Hs2 & Hv2); auto.
  - split; [done|]. split; [done|].
    split; [by eapply same_but_energy_trans|auto].
  - apply all_validated_spec. intros x Hx.
    by apply Hv1, (proj1 (all_validated_spec _ _) Hv).
Qed.

Lemma recover_1000 (r : Runner) :
  energy_in_range r = true →
  recover_energy r (VInt 1000) = Ok (set_energy r 1000).
Proof.
  intros [He Hm]%energy_in_range_spec.
  rewrite recover_energy_clamps by lia. do 2 f_equal. lia.
Qed.

(** The recovery loop: the runners with a DNF have 1000 energy after it,
    and the others are as they were. *)
Lemma recover_dnf_spec results h :
  (∀ x, x ∈ results.*1 → energy_in_range (h x) = true) →
  ∃ h', recover_dnf h results = Ok h'
    ∧ ∀ x, h' x = if dnf_in results x then set_energy (h x) 1000 else h x.
Proof.
  unfold recover_dnf. revert h.
  induction results as [|[r t] results IH]; intros h Hrange; simpl.
  { by exists h. }
  assert (∀ h1, (∀ x, h1 x = h x ∨ h1 x = set_energy (h x) 1000) →
            ∀ x, x ∈ results.*1 → energy_in_range (h1 x) = true) as Hstep.
  { intros h1 Hh1 x Hx.
    assert (energy_in_range (h x) = true) as Hx'
      by (apply Hrange, elem_of_cons; by right).
    destruct (Hh1 x) as [-> | ->]; [done|].
    apply energy_in_range_spec in Hx'. apply energy_in_range_spec. simpl. lia. }
  destruct t as [t|]; simpl.
  - destruct (IH h) as (h' & Hrun & Hh'); [apply Hstep; auto|].
    exists h'. split; [done|]. intros x. rewrite Hh'. by rewrite andb_false_r.
  - rewrite recover_1000 by (apply Hrange, elem_of_cons; by left). simpl.
    destruct (IH (<[r := set_energy (h r) 1000]> h)) as (h' & Hrun & Hh').
    { apply Hstep. intros x. destruct (decide (x = r)) as [->|Hne].
      - right. apply fn_lookup_insert.
      - left. by apply fn_lookup_insert_ne. }
    exists h'. split; [done|]. intros x. rewrite Hh', andb_true_r.
    destruct (decide (r = x)) as [->|Hne].
    + rewrite bool_decide_eq_true_2 by done. simpl.
      rewrite fn_lookup_insert. by destruct (dnf_in results x).
    + rewrite bool_decide_eq_false_2 by done. simpl.
      by rewrite fn_lookup_insert_ne.
Qed.

Lemma dnf_in_true results (runner : ref) :
  (runner, DNF) ∈ results → dnf_in results runner = true.
Proof.
  intros Hin. unfold dnf_in. apply existsb_exists. exists (runner, DNF).
  split; [by apply list_elem_of_In|]. simpl. by rewrite bool_decide_eq_true_2.
Qed.

Lemma dnf_in_all_finished results (runner : ref) :
  all_finished results = true → dnf_in results runner = false.
Proof.
  unfold all_finished, dnf_in. rewrite forallb_forall. intros Hfin.
  apply not_true_is_false. intros ([r t] & Hin & Hx)%existsb_exists.
  apply andb_true_iff in Hx as [_ Hx]. specialize (Hfin _ Hin).
  simpl in *. by rewrite Hx in Hfin.
Qed.

End round_facts.

(** C5: in a round over validated runners, when the two races have
    returned, the recovery loop returns; the store it leaves is the one the
    round hands to the next round; in it every runner with a DNF in the
    marathon has exactly 1000 energy, whatever was left of it, and every
    runner without one is as the marathon left them.  In a round that
    completes, every runner with a time in the marathon is as the marathon
    left them. *)
Theorem C5_dnf_runners_recover (self : Competition) (h h2 : store)
    (short_result marathon_result : list (ref * taken_time)) :
  all_validated h (runners self) = true →
  run_races self h = Ok (h2, short_result, marathon_result) →
  ∃ h3,
    recover_dnf h2 marathon_result = Ok h3
    ∧ (∀ runner, (runner, DNF) ∈ marathon_result → energy (h3 runner) = 1000)
    ∧ (∀ runner, dnf_in marathon_result runner = false → h3 runner = h2 runner)
    ∧ (NoDup (runners self) →
       ∀ runner t, (runner, Time t) ∈ marathon_result → h3 runner = h2 runner)
    ∧ ∀ h' self', round self h = Ok (h', self') →
        h' = h3
        ∧ ∀ runner t, (runner, Time t) ∈ marathon_result → h' runner = h2 runner.
Proof.
  intros Hv Hraces.
  destruct (run_races_returned _ _ _ _ _ Hv Hraces) as (_ & Hfst & _ & Hv2).
  destruct (recover_dnf_spec marathon_result h2) as (h3 & Hrec & Hh3).
  { intros x Hx. rewrite Hfst in Hx.
    pose proof (Hv2 x (proj1 (all_validated_spec _ _) Hv x Hx)) as Hvx.
    unfold validated in Hvx. by apply andb_true_iff in Hvx as [_ ?]. }
  exists h3. split; [done|]. split; [|split; [|split]].
  - intros runner Hin. by rewrite Hh3, dnf_in_true.
  - intros runner Hno. by rewrite Hh3, Hno.
  - intros Hnodup runner t Hin. rewrite Hh3.
    destruct (dnf_in marathon_result runner) eqn:Hdnf; [|done].
    apply existsb_exists in Hdnf as ([r' t'] & Hin'%list_elem_of_In & Hx).
    apply andb_true_iff in Hx as [Hr Ht]. simpl in *.
    apply bool_decide_eq_true in Hr as ->. destruct t' as [|]; [done|].
    rewrite <- Hfst in Hnodup.
    apply list_elem_of_lookup in Hin as [i Hi], Hin' as [j Hj].
    assert (i = j) as ->; [|congruence].
    eapply NoDup_lookup; [exact Hnodup| |]; by rewrite list_lookup_fmap, ?Hi, ?Hj.
  - intros h' self'. unfold round. rewrite Hraces. simpl. rewrite Hrec. simpl.
    destruct (update_leaderboard _ h3 short_result) as [lb1|]; [|done]. simpl.
    destruct (update_leaderboard lb1 h3 marathon_result) as [lb2|] eqn:Hup; [|done].
    simpl. intros [= <- <-]. split; [done|].
    intros runner t Hin. rewrite Hh3.
    unfold update_leaderboard in Hup.
    destruct (sorted by_time marathon_result) as [sr|] eqn:Hsort; [|done].
    apply sorted_Ok_one_kind in Hsort as [Hfin|Hdnf].
    + by rewrite dnf_in_all_finished.
    + unfold all_DNF in Hdnf. rewrite forallb_forall in Hdnf.
      by specialize (Hdnf _ (proj1 (list_elem_of_In _ _) Hin)).
Qed.

(** C5, at an instance: Elijah alone over 11 km, who gives up after ten and recovers. *)
Lemma C5_dnf_runners_recover_witness :
  all_validated scenario.store0 (runners scenario.solo) = true
  ∧ run_races scenario.solo scenario.store0
    = Ok (scenario.solo_store, [(0%nat, Time 184.61999999999998)], scenario.solo_marathon)
  ∧ scenario.solo_marathon = [(0%nat, DNF)]
  ∧ energy (scenario.solo_store 0%nat) = 0
  ∧ ∃ h3,
      recover_dnf scenario.solo_store scenario.solo_marathon = Ok h3
      ∧ energy (h3 0%nat) = 1000.
Proof.
  assert (run_races scenario.solo scenario.store0
          = Ok (scenario.solo_store, [(0%nat, Time 184.61999999999998)], scenario.solo_marathon))
    as Hraces by (vm_compute; reflexivity).
  split; [reflexivity|]. split; [exact Hraces|].
  split; [vm_compute; reflexivity|]. split; [vm_compute; reflexivity|].
  destruct (C5_dnf_runners_recover scenario.solo scenario.store0
              scenario.solo_store [(0%nat, Time 184.61999999999998)] scenario.solo_marathon
              eq_refl Hraces)
    as (h3 & Hrec & Hdnf & _).
  exists h3. split; [exact Hrec|]. apply Hdnf.
  vm_compute. apply list_elem_of_here.
Defined.

(** ** The rank labels *)

Section ordinal_facts.

Lemma string_length_app (a b : string) :
  String.length (a +:+ b) = (String.length a + String.length b)%nat.
Proof.
  induction a as [|c a IH]; [done|].
  change (S (String.length (a +:+ b)) = S (String.length a + String.length b)).
  by rewrite IH.
Qed.

Lemma string_app_inj_l (a a' b b' : string) :
  String.length b = String.length b' → a +:+ b = a' +:+ b' → a = a'.
Proof.
  intros Hlen. revert a'. induction a as [|c a IH]; intros [|c' a'].
  - done.
  - change (b = String c' (a' +:+ b') → "" = String c' a').
    intros Heq. rewrite Heq in Hlen.
    change (S (String.length (a' +:+ b')) = String.length b') in Hlen.
    rewrite string_length_app in Hlen. lia.
  - change (String c (a +:+ b) = b' → String c a = "").
    intros Heq. rewrite <- Heq in Hlen.
    change (String.length b = S (String.length (a +:+ b))) in Hlen.
    rewrite string_length_app in Hlen. lia.
  - change (String c (a +:+ b) = String c' (a' +:+ b') → String c a = String c' a').
    intros [= -> Heq]. f_equal. by apply IH.
Qed.

(** The label is the decimal numeral followed by the English suffix. *)
Lemma get_ordinal_english (n : Z) : get_ordinal n = pretty n +:+ english_suffix n.
Proof.
  unfold get_ordinal, english_suffix. f_equal.
  destruct (Z.leb_spec 11 (n mod 100)), (Z.leb_spec (n mod 100) 13); simpl.
  - rewrite bool_decide_eq_true_2; [done|].
    assert (n mod 100 = 11 ∨ n mod 100 = 12 ∨ n mod 100 = 13) as [->|[->| ->]]
      by lia; set_solver.
  - rewrite bool_decide_eq_false_2 by (rewrite !elem_of_cons, elem_of_nil; lia).
    repeat case_bool_decide; repeat case_match; try done; lia.
  - rewrite bool_decide_eq_false_2 by (rewrite !elem_of_cons, elem_of_nil; lia).
    repeat case_bool_decide; repeat case_match; try done; lia.
  - lia.
Qed.

Lemma english_suffix_length (n : Z) : String.length (english_suffix n) = 2%nat.
Proof. unfold english_suffix. by repeat case_bool_decide. Qed.

Lemma get_ordinal_inj (n m : Z) : get_ordinal n = get_ordinal m → n = m.
Proof.
  rewrite !get_ordinal_english. intros Heq.
  apply string_app_inj_l in Heq; [by apply (inj pretty)|].
  by rewrite !english_suffix_length.
Qed.

Lemma NoDup_ordinals (m n : Z) : NoDup (get_ordinal <$> seqZ m n).
Proof.
  apply NoDup_fmap_2_strong; [|apply NoDup_seqZ].
  intros ?? _ _. apply get_ordinal_inj.
Qed.

(** The leaderboard [__init__] builds: the labels of the ranks 1 to [n]
    in order, each with [None]. *)
Lemma empty_board_from (l : list Z) (acc : board) :
  NoDup (keys acc ++ (get_ordinal <$> l)) →
  foldl (λ lb i, dict_set (get_ordinal i) None lb) acc l
  = acc ++ ((λ i, (get_ordinal i, None)) <$> l).
Proof.
  revert acc. induction l as [|i l IH]; intros acc Hnodup; simpl.
  - by rewrite app_nil_r.
  - rewrite dict_set_fresh.
    2:{ apply NoDup_app in Hnodup as (_ & Hdisj & _). intros Hin.
        apply (Hdisj _ Hin). by apply elem_of_cons; left. }
    rewrite IH; [by rewrite <- app_assoc|].
    unfold keys in *. rewrite fmap_app, <- app_assoc. done.
Qed.

Lemma init_returned (rs : list pyval) (rv : pyval) (ds dm : list pyval)
    (self : Competition) :
  competition.init rs rv ds dm = Ok self →
  mapM as_runner rs = Some (runners self)
  ∧ 1 ≤ rounds self ≤ MAX_ROUNDS
  ∧ leaderboard self
    = (λ i, (get_ordinal i, None)) <$> seqZ 1 (Z.of_nat (length (runners self))).
Proof.
  unfold competition.init.
  destruct (mapM as_runner rs) as [l|]; [|done].
  destruct (as_int rv) as [n|]; [|by destruct rs].
  destruct (mapM as_float ds) as [ds'|]; [|done].
  destruct (mapM as_float dm) as [dm'|]; [|done].
  destruct (Z.leb_spec 1 n), (Z.leb_spec n MAX_ROUNDS); simpl; try done.
  destruct (negb _); [done|]. intros [= <-]. simpl.
  split; [done|]. split; [done|].
  by rewrite (empty_board_from _ []) by apply NoDup_ordinals.
Qed.

End ordinal_facts.

(** ** Updating the leaderboard *)

Section update_facts.
Implicit Types (lb : board) (d : dict Z) (h : store)
  (results : list (ref * taken_time)).

Lemma foldM_app {A B} (f : B → A → res B) (b : B) (l1 l2 : list A) :
  foldM f b (l1 ++ l2) = (b' ← foldM f b l1; foldM f b' l2).
Proof.
  revert b. induction l1 as [|x l1 IH]; intros b; simpl; [done|].
  destruct (f b x) as [b'|]; simpl; [apply IH|done].
Qed.

Lemma score_in_cons lb (k : string) (slot : option (string * Z)) (nm : string) :
  score_in ((k, slot) :: lb) nm
  = match slot with
    | Some (n, s) => if decide (n = nm) then s + score_in lb nm else score_in lb nm
    | None => score_in lb nm
    end.
Proof. done. Qed.

(** The loop over the slots adds to each name the score the leaderboard
    holds for it, and changes no key of [name2score]. *)
Lemma add_previous_fold lb (l : board) d d' :
  (∀ k v, (k, v) ∈ l → dict_get lb k = Some v) →
  foldM (add_previous lb) d (keys l) = Ok d' →
  keys d' = keys d
  ∧ ∀ nm, dict_get d' nm = (λ s, s + score_in l nm) <$> dict_get d nm.
Proof.
  revert d. induction l as [|[k v] l IH]; intros d Hget.
  - intros [= <-]. split; [done|]. intros nm.
    destruct (dict_get d nm); simpl; [f_equal; lia|done].
  - change (keys ((k, v) :: l)) with (k :: keys l). cbn [foldM].
    unfold add_previous at 1. rewrite (Hget k v) by (apply elem_of_cons; by left).
    assert (∀ k0 v0, (k0, v0) ∈ l → dict_get lb k0 = Some v0) as Hget'
      by (intros; apply Hget, elem_of_cons; by right).
    destruct v as [[name score]|].
    + destruct (dict_get d name) as [s|] eqn:Hs; [|done]. simpl.
      intros [Hkeys Hvals]%IH; [|done].
      split.
      { rewrite Hkeys. apply dict_set_keys.
        destruct (decide (name ∈ keys d)) as [|Hnotin]; [done|].
        apply dict_get_None in Hnotin. congruence. }
      intros nm. rewrite Hvals, dict_get_set.
      destruct (decide (nm = name)) as [->|Hne].
      * rewrite Hs, decide_True by done. simpl. f_equal. lia.
      * by rewrite decide_False by congruence.
    + simpl. intros [Hkeys Hvals]%IH; [|done]. split; [done|].
      intros nm. by rewrite Hvals.
Qed.

(** The second sort never raises, and orders by falling score. *)
Lemma sorted_by_score d : sorted by_score d = Ok (sorted_pure more_points d).
Proof. by apply sorted_is_pure. Qed.

Lemma sorted_by_score_falling d :
  StronglySorted (λ x y : string * Z, y.2 ≤ x.2) (sorted_pure more_points d).
Proof.
  assert (StronglySorted (not_before more_points) (sorted_pure more_points d))
    as Hsorted.
  { apply sorted_pure_sorted; unfold more_points.
    - intros x. apply Z.ltb_irrefl.
    - intros x y z ?%Z.ltb_lt ?%Z.ltb_lt. apply Z.ltb_lt. lia. }
  induction Hsorted as [|x l _ IH Hx]; constructor; [done|].
  eapply Forall_impl; [exact Hx|]. intros y Hy.
  unfold not_before, more_points in Hy. apply Z.ltb_ge in Hy. lia.
Qed.

Lemma enumerate_snoc {A} (l : list A) (x : A) :
  enumerate (l ++ [x]) = enumerate l ++ [(Z.of_nat (length l), x)].
Proof. unfold enumerate. rewrite imap_app. simpl. by rewrite Nat.add_0_r. Qed.

(** The loop that fills the slots: slot [i] gets the [i]-th item under the
    key it has, and the slots beyond the items stay. *)
Lemma assign_ranks (ks : list string) (entries : list (string * Z)) lb lb' :
  NoDup ks → keys lb = ks →
  foldM (assign_rank ks) lb (enumerate entries) = Ok lb' →
  (length entries ≤ length ks)%nat ∧ keys lb' = ks
  ∧ ∀ i : nat,
      lb' !! i = match entries !! i with
                 | Some ns => (λ key, (key, Some ns)) <$> ks !! i
                 | None => lb !! i
                 end.
Proof.
  intros Hnodup Hkeys. revert lb'.
  induction entries as [|ns entries IH] using rev_ind; intros lb'.
  - intros [= <-]. simpl. split; [lia|]. by split.
  - rewrite enumerate_snoc, foldM_app.
    destruct (foldM _ lb (enumerate entries)) as [lb1|] eqn:Hfold; [|done].
    destruct (IH lb1 eq_refl) as (Hlen & Hkeys1 & Hlook). simpl.
    rewrite Nat2Z.id. destruct (ks !! length entries) as [key|] eqn:Hkey; [|done].
    simpl. intros [= <-].
    assert (∃ v0, lb1 !! length entries = Some (key, v0)) as [v0 Hv0].
    { rewrite <- Hkeys1 in Hkey. unfold keys in Hkey.
      rewrite list_lookup_fmap in Hkey.
      destruct (lb1 !! length entries) as [[k0 v0]|]; [|done].
      injection Hkey as ->. by exists v0. }
    rewrite (dict_set_insert lb1 (length entries) key _ v0)
      by (by rewrite ?Hkeys1).
    pose proof (lookup_lt_Some _ _ _ Hkey) as Hlt.
    pose proof (lookup_lt_Some _ _ _ Hv0) as Hlt1.
    split; [rewrite length_app; simpl; lia|]. split.
    { unfold keys in *. rewrite list_fmap_insert. simpl.
      rewrite list_insert_id; [done|]. by rewrite list_lookup_fmap, Hv0. }
    intros i. destruct (decide (i = length entries)) as [->|Hne].
    + rewrite list_lookup_insert_eq by done.
      rewrite lookup_app_r, Nat.sub_diag by done. simpl. by rewrite Hkey.
    + rewrite list_lookup_insert_ne by done. rewrite Hlook.
      destruct (decide (i < length entries)%nat).
      * by rewrite lookup_app_l.
      * rewrite (lookup_ge_None_2 entries i) by lia.
        rewrite (lookup_ge_None_2 (entries ++ [ns]) i); [done|].
        rewrite length_app. simpl. lia.
Qed.

(** What [update_leaderboard] returns for the results of a race of
    runners with different names, as many as the leaderboard has slots:
    the slots keep their keys and hold the runners' names, each with the
    points of the race added to the score the leaderboard held for it, in
    the order of falling score. *)
Lemma update_leaderboard_returned lb h results lb' :
  NoDup (keys lb) → length results = length lb → NoDup (names h results) →
  update_leaderboard lb h results = Ok lb' →
  keys lb' = keys lb
  ∧ ∃ entries,
      lb'.*2 = Some <$> entries
      ∧ entries.*1 ≡ₚ names h results
      ∧ StronglySorted (λ x y : string * Z, y.2 ≤ x.2) entries
      ∧ ∀ nm s, (nm, s) ∈ entries →
          s = race_points h results nm + score_in lb nm.
Proof.
  intros Hkeys Hlen Hnames. unfold update_leaderboard.
  destruct (sorted by_time results) as [sr|] eqn:Hsort; [|done]. simpl.
  pose proof (sorted_Permutation _ _ _ Hsort) as Hperm.
  assert (NoDup (names h sr)) as Hnames' by (unfold names; by rewrite Hperm).
  destruct (foldM (add_previous lb) _ (keys lb)) as [n2s|] eqn:Hadd; [|done].
  simpl. rewrite sorted_by_score. simpl.
  apply add_previous_fold in Hadd as [Hk Hvals];
    [|by intros k v; apply dict_get_NoDup].
  rewrite race_scores_keys in Hk by done.
  pose proof (sorted_pure_Permutation more_points n2s) as Hperm2.
  set (entries := sorted_pure more_points n2s) in *.
  intros (Hle & Hkeys' & Hlook)%assign_ranks; [|done..].
  assert (length entries = length lb) as Hlen'.
  { rewrite Hperm2, <- Hlen, <- Hperm, <- (length_fmap fst n2s).
    unfold keys in Hk. rewrite Hk. unfold names. by rewrite length_fmap. }
  split; [done|]. exists entries. split; [|split; [|split]].
  - apply list_eq. intros i. rewrite !list_lookup_fmap, Hlook.
    destruct (entries !! i) as [ns|] eqn:Hi; simpl.
    + apply lookup_lt_Some in Hi.
      destruct (lookup_lt_is_Some_2 (keys lb) i) as [key ->]; [|done].
      unfold keys. rewrite length_fmap. lia.
    + apply lookup_ge_None in Hi. rewrite lookup_ge_None_2; [done|lia].
  - rewrite Hperm2. unfold keys in Hk. rewrite Hk. unfold names.
    by rewrite Hperm.
  - apply sorted_by_score_falling.
  - intros nm s Hin. rewrite Hperm2 in Hin.
    assert (NoDup (keys n2s)) as Hnodup by by rewrite Hk.
    apply (dict_get_NoDup _ _ _ Hnodup) in Hin. rewrite Hvals in Hin.
    unfold race_points. rewrite Hsort.
    destruct (dict_get _ nm) as [s0|]; [|done]. simpl in *. by injection Hin as <-.
Qed.

End update_facts.

(** ** The rounds *)

Section rounds_facts.
Implicit Types (lb : board) (h : store) (self : Competition)
  (results : list (ref * taken_time)).

Lemma names_roster h results : names h results = roster_names h results.*1.
Proof. unfold names, roster_names. by rewrite <- list_fmap_compose. Qed.

Lemma roster_names_same h h' (l : list ref) :
  same_but_energy h h' → roster_names h' l = roster_names h l.
Proof.
  intros Hs. unfold roster_names. apply list_fmap_ext. intros _ r _.
  by destruct (Hs r) as [e ->].
Qed.

Lemma race_scores_same h h' (n : nat) results :
  same_but_energy h h' → race_scores h' n results = race_scores h n results.
Proof.
  intros Hs. unfold race_scores. generalize (@nil (string * Z)).
  induction (enumerate results) as [|[i [r t]] l IH]; intros acc; [done|].
  simpl. rewrite IH. by destruct (Hs r) as [e ->].
Qed.

Lemma race_points_same h h' results (nm : string) :
  same_but_energy h h' → race_points h' results nm = race_points h results nm.
Proof.
  intros Hs. unfold race_points. destruct (sorted by_time results); [|done].
  by rewrite (race_scores_same h h').
Qed.

Lemma total_points_same h h' (log : list (list (ref * taken_time))) (nm : string) :
  same_but_energy h h' → total_points h' log nm = total_points h log nm.
Proof.
  intros Hs. induction log as [|results log IH]; [done|].
  simpl. by rewrite IH, (race_points_same h h').
Qed.

(** The score a full leaderboard holds for a name it holds once. *)
Lemma score_in_entries lb (entries : list (string * Z)) (nm : string) (s : Z) :
  lb.*2 = Some <$> entries → NoDup entries.*1 → (nm, s) ∈ entries →
  score_in lb nm = s.
Proof.
  revert lb. induction entries as [|[n0 s0] entries IH]; intros lb Hlb Hnodup Hin.
  { by apply elem_of_nil in Hin. }
  destruct lb as [|[k slot] lb]; [done|]. injection Hlb as -> Hlb.
  apply NoDup_cons in Hnodup as [Hn0 Hnodup]. rewrite score_in_cons.
  assert (∀ s1, (n0, s1) ∈ entries → False) as Hfresh.
  { intros s1 Hs1. apply Hn0. apply list_elem_of_fmap. by exists (n0, s1). }
  apply elem_of_cons in Hin as [[= -> ->]|Hin].
  - rewrite decide_True by done.
    assert (score_in lb n0 = 0) as ->; [|lia].
    clear IH. revert lb Hlb. clear -Hfresh.
    induction entries as [|[n1 s1] entries IH]; intros [|[k1 slot1] lb] Hlb;
      try done.
    injection Hlb as -> Hlb. rewrite score_in_cons.
    rewrite decide_False.
    + apply IH; [|done]. intros s2 Hs2. apply (Hfresh s2), elem_of_cons. by right.
    + intros ->. apply (Hfresh s1), elem_of_cons. by left.
  - rewrite decide_False; [by apply IH|].
    intros ->. by apply (Hfresh s).
Qed.

Lemma score_in_empty {A} (f : A → string) (l : list A) (nm : string) :
  score_in ((λ i, (f i, None)) <$> l) nm = 0.
Proof. induction l as [|k l IH]; [done|]. by rewrite fmap_cons, score_in_cons. Qed.

Lemma recover_dnf_returned results h h' :
  (∀ x, x ∈ results.*1 → validated (h x) = true) →
  recover_dnf h results = Ok h' →
  same_but_energy h h' ∧ ∀ x, validated (h x) = true → validated (h' x) = true.
Proof.
  intros Hv Hrec.
  destruct (recover_dnf_spec results h) as (h1 & Hrec1 & Hh1).
  { intros x Hx. specialize (Hv x Hx). unfold validated in Hv.
    by apply andb_true_iff in Hv as [_ ?]. }
  rewrite Hrec in Hrec1. injection Hrec1 as <-. split.
  - intros x. rewrite Hh1. destruct (dnf_in results x); [by eexists|].
    exists (energy (h x)). by rewrite set_energy_id.
  - intros x Hx. rewrite Hh1. destruct (dnf_in results x); [|done].
    apply validated_set_energy; [done|lia].
Qed.

(** A round that completes, over validated runners with different names
    and a leaderboard with one slot per runner: it leaves every slot
    filled, with the runners' names, each with the points of the two races
    added to its score, in the order of falling score. *)
Lemma round_returned self h h' self' :
  all_validated h (runners self) = true →
  NoDup (roster_names h (runners self)) →
  NoDup (keys (leaderboard self)) →
  length (leaderboard self) = length (runners self) →
  round self h = Ok (h', self') →
  ∃ h2 short_result marathon_result,
    run_races self h = Ok (h2, short_result, marathon_result)
    ∧ recover_dnf h2 marathon_result = Ok h'
    ∧ same_but_energy h h'
    ∧ all_validated h' (runners self) = true
    ∧ (∃ lb, self' = set_leaderboard self lb)
    ∧ keys (leaderboard self') = keys (leaderboard self)
    ∧ ∃ entries,
        (leaderboard self').*2 = Some <$> entries
        ∧ entries.*1 ≡ₚ roster_names h (runners self)
        ∧ StronglySorted (λ x y : string * Z, y.2 ≤ x.2) entries
        ∧ ∀ nm s, (nm, s) ∈ entries →
            s = total_points h [short_result; marathon_result] nm
                + score_in (leaderboard self) nm.
Proof.
  intros Hv Hnames Hkeys Hlen. unfold round.
  destruct (run_races self h) as [[[h2 sres] mres]|] eqn:Hraces; [|done]. simpl.
  destruct (run_races_returned _ _ _ _ _ Hv Hraces) as (Hfs & Hfm & Hs2 & Hv2).
  destruct (recover_dnf h2 mres) as [h3|] eqn:Hrec; [|done]. simpl.
  destruct (recover_dnf_returned mres h2 h3) as [Hs3 Hv3]; [|done|].
  { intros x Hx. rewrite Hfm in Hx.
    by apply Hv2, (proj1 (all_validated_spec _ _) Hv). }
  assert (same_but_energy h h3) as Hs by by eapply same_but_energy_trans.
  destruct (update_leaderboard _ h3 sres) as [lb1|] eqn:Hup1; [|done]. simpl.
  destruct (update_leaderboard lb1 h3 mres) as [lb2|] eqn:Hup2; [|done]. simpl.
  intros [= <- <-].
  assert (∀ results, results.*1 = runners self →
            names h3 results = roster_names h (runners self)) as Hnm.
  { intros results <-. by rewrite names_roster, (roster_names_same h h3). }
  apply update_leaderboard_returned in Hup1
    as (Hk1 & entries1 & Hlb1 & Hperm1 & _ & Hscore1);
    [|done|by rewrite Hlen, <- Hfs, length_fmap|by rewrite Hnm].
  assert (length lb1 = length (leaderboard self)) as Hlen1.
  { by rewrite <- (keys_length lb1), Hk1, keys_length. }
  apply update_leaderboard_returned in Hup2
    as (Hk2 & entries2 & Hlb2 & Hperm2 & Hsorted2 & Hscore2);
    [|by rewrite Hk1|by rewrite Hlen1, Hlen, <- Hfm, length_fmap|by rewrite Hnm].
  rewrite Hnm in Hperm1, Hperm2 by done.
  exists h2, sres, mres. split_and!; try done.
  - apply all_validated_spec. intros x Hx.
    by apply Hv3, Hv2, (proj1 (all_validated_spec _ _) Hv).
  - by eexists.
  - simpl. by rewrite Hk2, Hk1.
  - exists entries2. simpl. split_and!; try done.
    intros nm s Hin. rewrite (Hscore2 nm s Hin).
    rewrite !(race_points_same h h3) by done.
    assert (nm ∈ entries1.*1) as ([nm1 s1] & -> & Hin1)%list_elem_of_fmap.
    { rewrite Hperm1, <- Hperm2. apply list_elem_of_fmap. by exists (nm, s). }
    simpl. rewrite (score_in_entries lb1 entries1 nm1 s1 Hlb1); [| |done].
    + rewrite (Hscore1 nm1 s1 Hin1), (race_points_same h h3) by done. lia.
    + by rewrite Hperm1.
Qed.

Lemma race_log_set_leaderboard (fuel : nat) self lb h (current_round : Z) :
  race_log fuel (set_leaderboard self lb) h current_round
  = race_log fuel self h current_round.
Proof.
  revert h current_round. induction fuel as [|fuel IH]; intros h cr; [done|].
  simpl. destruct (cr <=? rounds self); [|done].
  change (run_races (set_leaderboard self lb) h) with (run_races self h).
  destruct (run_races self h) as [[[h2 sres] mres]|]; [|done]. simpl.
  destruct (recover_dnf h2 mres) as [h3|]; [|done]. simpl. by rewrite IH.
Qed.

(** The loop: when it returns, it has run the races of its log, two for
    each turn, and unless it made no turn it leaves every slot filled as a
    round does, with the points of all the races of the log added. *)
Lemma while_rounds_returned (fuel : nat) self h (current_round : Z) h' self' :
  all_validated h (runners self) = true →
  NoDup (roster_names h (runners self)) →
  NoDup (keys (leaderboard self)) →
  length (leaderboard self) = length (runners self) →
  current_round + Z.of_nat fuel = rounds self + 1 →
  while_rounds fuel self h current_round = Ok (h', self') →
  ∃ log,
    race_log fuel self h current_round = Ok log
    ∧ length log = (2 * fuel)%nat
    ∧ keys (leaderboard self') = keys (leaderboard self)
    ∧ match fuel with
      | O => self' = self
      | S _ =>
          ∃ entries,
            (leaderboard self').*2 = Some <$> entries
            ∧ entries.*1 ≡ₚ roster_names h (runners self)
            ∧ StronglySorted (λ x y : string * Z, y.2 ≤ x.2) entries
            ∧ ∀ nm s, (nm, s) ∈ entries →
                s = total_points h log nm + score_in (leaderboard self) nm
      end.
Proof.
  revert self h current_round.
  induction fuel as [|fuel IH]; intros self h cr Hv Hnames Hkeys Hlen Hfuel.
  { intros [= <- <-]. by exists []. }
  simpl. destruct (Z.leb_spec cr (rounds self)); [|lia].
  destruct (round self h) as [[h1 self1]|] eqn:Hround; [|done]. simpl.
  destruct (round_returned _ _ _ _ Hv Hnames Hkeys Hlen Hround)
    as (h2 & sres & mres & Hraces & Hrec & Hs1 & Hv1 & [lb1 ->] & Hk1
        & entries1 & Hlb1 & Hperm1 & Hsorted1 & Hscore1).
  simpl in *. rewrite Hraces. simpl. rewrite Hrec. simpl.
  assert (length lb1 = length (runners self)) as Hlen1.
  { by rewrite <- Hlen, <- (keys_length lb1), Hk1, keys_length. }
  intros Hloop.
  destruct (IH (set_leaderboard self lb1) h1 (cr + 1)) with (1 := Hv1)
    as (log & Hlog & Hloglen & Hk & Hrest); simpl; try done.
  { by rewrite (roster_names_same h h1). }
  { by rewrite Hk1. }
  { lia. }
  rewrite race_log_set_leaderboard in Hlog. rewrite Hlog. simpl.
  exists (sres :: mres :: log). split; [done|].
  split; [simpl; lia|]. split; [by rewrite Hk|].
  destruct fuel as [|fuel].
  - subst self'. simpl in *. exists entries1. split_and!; try done.
    destruct log; [|done]. done.
  - destruct Hrest as (entries & Hlb & Hperm & Hsorted & Hscore).
    simpl in *. rewrite (roster_names_same h h1) in Hperm by done.
    exists entries. split_and!; try done.
    intros nm s Hin. rewrite (Hscore nm s Hin), (total_points_same h h1) by done.
    assert (nm ∈ entries1.*1) as ([nm1 s1] & -> & Hin1)%list_elem_of_fmap.
    { rewrite Hperm1, <- Hperm. apply list_elem_of_fmap. by exists (nm, s). }
    simpl. rewrite (score_in_entries lb1 entries1 nm1 s1 Hlb1); [| |done].
    + rewrite (Hscore1 nm1 s1 Hin1). simpl. lia.
    + by rewrite Hperm1.
Qed.

Lemma while_rounds_S (fuel : nat) self h (current_round : Z) :
  while_rounds (S fuel) self h current_round
  = if current_round <=? rounds self
    then '(h', self') ← round self h;
         while_rounds fuel self' h' (current_round + 1)
    else Ok (h, self).
Proof. done. Qed.

Lemma round_rounds self h h' self' :
  round self h = Ok (h', self') → rounds self' = rounds self.
Proof.
  unfold round.
  destruct (run_races self h) as [[[h2 sres] mres]|]; [|done]. simpl.
  destruct (recover_dnf h2 mres) as [h3|]; [|done]. simpl.
  destruct (update_leaderboard _ h3 sres) as [lb1|]; [|done]. simpl.
  destruct (update_leaderboard lb1 h3 mres) as [lb2|]; [|done]. simpl.
  by intros [= <- <-].
Qed.

(** The fuel of [conduct_competition] is enough: with it the loop stops
    at its test, and more fuel changes nothing. *)
Lemma while_rounds_fuel (fuel : nat) self h (current_round : Z) :
  rounds self + 1 ≤ current_round + Z.of_nat fuel →
  while_rounds (S fuel) self h current_round
  = while_rounds fuel self h current_round.
Proof.
  revert self h current_round.
  induction fuel as [|fuel IH]; intros self h cr Hfuel.
  - simpl. by destruct (Z.leb_spec cr (rounds self)); [lia|].
  - rewrite (while_rounds_S (S fuel)), (while_rounds_S fuel).
    destruct (cr <=? rounds self); [|done].
    destruct (round self h) as [[h1 self1]|] eqn:Hround; [|done]. simpl.
    apply IH. rewrite (round_rounds _ _ _ _ Hround). lia.
Qed.

Lemma while_rounds_enough (k : nat) self h :
  while_rounds (Z.to_nat (rounds self) + k) self h 1
  = while_rounds (Z.to_nat (rounds self)) self h 1.
Proof.
  induction k as [|k IH]; [by rewrite Nat.add_0_r|].
  rewrite Nat.add_succ_r, while_rounds_fuel; [done|lia].
Qed.

End rounds_facts.

(** C4 (amended): for a competition that [__init__] returned, over
    validated runners with pairwise different names, when
    [conduct_competition] returns, the leaderboard has exactly one slot per
    roster member, under the labels of the ranks 1, 2, ... in order, each
    the decimal numeral with its English suffix ("th" after 11, 12 and
    13); the slots hold the names of the roster members, each once, each
    with the points of all the races of the competition (two per round)
    added up, and the scores do not rise from one rank to the next. *)
Theorem C4_final_leaderboard (rs : list pyval) (rv : pyval) (ds dm : list pyval)
    (self self' : Competition) (h h' : store)
    (lb : list (string * option (string * Z))) :
  competition.init rs rv ds dm = Ok self →
  all_validated h (runners self) = true →
  NoDup (roster_names h (runners self)) →
  conduct_competition self h = Ok (h', self', lb) →
  keys lb = get_ordinal <$> seqZ 1 (Z.of_nat (length (runners self)))
  ∧ NoDup (keys lb)
  ∧ length lb = length (runners self)
  ∧ (∀ i, get_ordinal i = pretty i +:+ english_suffix i)
  ∧ ∃ (entries : list (string * Z)) (log : list (list (ref * taken_time))),
      lb.*2 = Some <$> entries
      ∧ entries.*1 ≡ₚ roster_names h (runners self)
      ∧ StronglySorted (λ x y : string * Z, y.2 ≤ x.2) entries
      ∧ race_log (Z.to_nat (rounds self)) self h 1 = Ok log
      ∧ Z.of_nat (length log) = 2 * rounds self
      ∧ ∀ nm s, (nm, s) ∈ entries → s = total_points h log nm.
Proof.
  intros (_ & Hrounds & Hlb)%init_returned Hv Hnames. unfold conduct_competition.
  destruct (while_rounds _ self h 1) as [[h1 self1]|] eqn:Hloop; [|done].
  simpl. intros [= <- <- <-].
  assert (keys (leaderboard self)
          = get_ordinal <$> seqZ 1 (Z.of_nat (length (runners self)))) as Hkeys.
  { rewrite Hlb. unfold keys. by rewrite <- list_fmap_compose. }
  assert (length (leaderboard self) = length (runners self)) as Hlen.
  { rewrite Hlb, length_fmap, length_seqZ. lia. }
  apply while_rounds_returned in Hloop
    as (log & Hlog & Hloglen & Hk & Hrest); try done.
  2:{ rewrite Hkeys. apply NoDup_ordinals. }
  2:{ unfold MAX_ROUNDS in Hrounds. lia. }
  split; [by rewrite Hk|]. split; [rewrite Hk, Hkeys; apply NoDup_ordinals|].
  split; [by rewrite <- (keys_length (leaderboard self1)), Hk, keys_length|].
  split; [apply get_ordinal_english|].
  destruct (Z.to_nat (rounds self)) as [|fuel] eqn:Hfuel; [lia|].
  destruct Hrest as (entries & Hentries & Hperm & Hsorted & Hscore).
  exists entries, log. split_and!; try done; [lia|].
  intros nm s Hin. rewrite (Hscore nm s Hin), Hlb, score_in_empty. lia.
Qed.

(** C4, at an instance: Elijah against Rupert, over 1 km and then 2 km; Elijah wins both. *)
Lemma C4_final_leaderboard_witness :
  competition.init [VRunner 0%nat; VRunner 1%nat] (VInt 1) [VFloat 1] [VFloat 2]
  = Ok scenario.duel
  ∧ all_validated scenario.store0 [0; 1]%nat = true
  ∧ NoDup (roster_names scenario.store0 [0; 1]%nat)
  ∧ conduct_competition scenario.duel scenario.store0
    = Ok (scenario.duel_store, scenario.duel_done,
          [("1st", Some ("Elijah", 2)); ("2nd", Some ("Rupert", 0))])
  ∧ keys [("1st", Some ("Elijah", 2)); ("2nd", Some ("Rupert", 0))]
    = get_ordinal <$> seqZ 1 2.
Proof.
  assert (NoDup (roster_names scenario.store0 [0; 1]%nat)) as Hnames
    by (apply (bool_decide_unpack _); vm_compute; exact I).
  assert (conduct_competition scenario.duel scenario.store0
          = Ok (scenario.duel_store, scenario.duel_done,
                [("1st", Some ("Elijah", 2)); ("2nd", Some ("Rupert", 0))]))
    as Hrun by (vm_compute; reflexivity).
  split; [reflexivity|]. split; [reflexivity|]. split; [exact Hnames|].
  split; [exact Hrun|].
  apply (C4_final_leaderboard
           [VRunner 0%nat; VRunner 1%nat] (VInt 1) [VFloat 1] [VFloat 2]
           scenario.duel scenario.duel_done scenario.store0 scenario.duel_store
           [("1st", Some ("Elijah", 2)); ("2nd", Some ("Rupert", 0))]
           eq_refl eq_refl Hnames Hrun).
Defined.

(** C4, the claim as stated fails: when two runners have the same name,
    one entry stands for both and the last slot is left empty.  Here the
    winner of both races and the runner he beat are both Elijah. *)
Lemma C4_same_name_leaves_slot_empty :
  competition.init [VRunner 0%nat; VRunner 1%nat] (VInt 1) [VFloat 1] [VFloat 2]
  = Ok scenario.duel
  ∧ all_validated scenario.store1 [0; 1]%nat = true
  ∧ roster_names scenario.store1 [0; 1]%nat = ["Elijah"; "Elijah"]
  ∧ snd <$> returned (conduct_competition scenario.duel scenario.store1)
    = Some [("1st", Some ("Elijah", 0)); ("2nd", None)].
Proof. repeat split; vm_compute; reflexivity. Qed.
